(** * LocalShare server (server.cjs): ephemeral content store with broadcast

    A shallow embedding of the request handlers, the socket handlers and the
    expiration timer of [server.cjs], together with the socket handlers of
    the client hook [useSocket].

    Conventions of the embedding.
    - A JavaScript string is the list of its UTF-16 code units.
    - The [Map] [sharedContent] is an insertion-ordered association list
      (module [JSMap]); the [Set] [connectedClients] is a finite set.
    - Timestamps are integers (milliseconds).
    - Node runs every handler to completion, so a run of the server is a
      sequence of requests, each handled atomically.
    - Values produced by collaborators ([uuidv4()], [Date.now()], [marked])
      are inputs of the handlers; [marked] returns. The routes are modelled
      from the point where the rate limiter, the JSON body parser and
      multer have let the request through.
    - An HTTP answer records what the handler does with [res]: the status
      it sets (200 when it sets none), the values it hands to [res.set]
      and the body it hands to [res.send] or [res.json]. What Express then
      puts on the wire for a 200 (a charset added to a textual
      [Content-Type], a 304 in place of the body for a conditional request
      whose validator matches) is Express's own.
    - Every store mutation and every socket emission is appended to a trace,
      in program order; beside the trace, each [io.emit] records the store
      as it is when the call runs. *)

From Stdlib Require Import ZArith NArith Strings.Ascii Strings.String Strings.Byte.
From stdpp Require Import base numbers option list gmap sets.

Local Open Scope Z_scope.

(** ** JavaScript strings *)

Abbreviation jsstring := (list N).

Module JS.

(** Code units of an ASCII literal. *)
Definition lit (s : string) : jsstring :=
  List.map (fun a => N_of_ascii a) (list_ascii_of_string s).

(** ECMAScript [WhiteSpace] and [LineTerminator] code units: what the
    regular-expression class [\s] and [String.prototype.trim] recognise. *)
Definition isWhiteSpace (c : N) : bool :=
  ((9 <=? c) && (c <=? 13) ||
   (c =? 32) || (c =? 160) || (c =? 5760) ||
   (8192 <=? c) && (c <=? 8202) ||
   (c =? 8232) || (c =? 8233) || (c =? 8239) || (c =? 8287) ||
   (c =? 12288) || (c =? 65279))%N.

Fixpoint trimStart (s : jsstring) : jsstring :=
  match s with
  | c :: s' => if isWhiteSpace c then trimStart s' else s
  | [] => []
  end.

Definition trim (s : jsstring) : jsstring :=
  rev (trimStart (rev (trimStart s))).

(** [s.startsWith(p)], returning what follows the prefix. *)
Fixpoint strip_prefix (p s : jsstring) : option jsstring :=
  match p, s with
  | [], _ => Some s
  | a :: p', b :: s' => if (a =? b)%N then strip_prefix p' s' else None
  | _ :: _, [] => None
  end.

(** Longest prefix of code units satisfying [f], and the rest. *)
Fixpoint span (f : N -> bool) (s : jsstring) : jsstring * jsstring :=
  match s with
  | c :: s' =>
      if f c then let '(a, b) := span f s' in (c :: a, b) else ([], s)
  | [] => ([], [])
  end.

End JS.

(** ** Insertion-ordered [Map] with string keys *)

Module JSMap.

Abbreviation t V := (list (jsstring * V)).

Section JSMap.
Context {V : Type}.

Definition empty : t V := [].

Fixpoint get (k : jsstring) (m : t V) : option V :=
  match m with
  | [] => None
  | (k', v) :: m' => if decide (k' = k) then Some v else get k m'
  end.

(** [m.set(k, v)]: an existing key keeps its position, a new key goes
    last. *)
Fixpoint set (k : jsstring) (v : V) (m : t V) : t V :=
  match m with
  | [] => [(k, v)]
  | (k', v') :: m' =>
      if decide (k' = k) then (k, v) :: m' else (k', v') :: set k v m'
  end.

Fixpoint delete (k : jsstring) (m : t V) : t V :=
  match m with
  | [] => []
  | (k', v) :: m' =>
      if decide (k' = k) then delete k m' else (k', v) :: delete k m'
  end.

Definition entries (m : t V) : list (jsstring * V) := m.
Definition keys (m : t V) : list jsstring := m.*1.
Definition values (m : t V) : list V := m.*2.
Definition size (m : t V) : nat := length m.

(** A [Map] holds each key once. *)
Definition wf (m : t V) : Prop := NoDup (keys m).

End JSMap.
End JSMap.

(** ** Content entries *)

(** [req.file] as multer's memory storage provides it. *)
Record MulterFile := {
  originalname : jsstring;
  mf_mimetype : jsstring;
  mf_size : Z;
  mf_buffer : list byte
}.

(** [fileData]; [buffer = None] is the object with the property deleted. *)
Record FileData := {
  f_id : jsstring;
  filename : jsstring;
  mimetype : jsstring;
  f_size : Z;
  buffer : option (list byte);
  uploadedAt : Z;
  f_expiresAt : Z;
  downloadUrl : jsstring
}.

(** [metadata]: both properties are optional. *)
Record Metadata := {
  hasLinks : option bool;
  firstUrl : option jsstring
}.

(** [contentData]. *)
Record TextData := {
  t_id : jsstring;
  content : jsstring;
  processedContent : jsstring;
  metadata : Metadata;
  sharedAt : Z;
  t_expiresAt : Z
}.

(** A stored value; the constructor is the [type] property. *)
Inductive Content :=
| File (f : FileData)
| Text (t : TextData).

Definition content_id (c : Content) : jsstring :=
  match c with File f => f_id f | Text t => t_id t end.

Definition expiresAt (c : Content) : Z :=
  match c with File f => f_expiresAt f | Text t => t_expiresAt t end.

(** [const clientData = { ...fileData }; delete clientData.buffer]. *)
Definition delete_buffer (fileData : FileData) : FileData :=
  {| f_id := f_id fileData;
     filename := filename fileData;
     mimetype := mimetype fileData;
     f_size := f_size fileData;
     buffer := None;
     uploadedAt := uploadedAt fileData;
     f_expiresAt := f_expiresAt fileData;
     downloadUrl := downloadUrl fileData |}.

(** The entry-view of the interface: a file entry without its payload
    bytes, a text entry as it is. *)
Definition entry_view (c : Content) : Content :=
  match c with
  | File f => File (delete_buffer f)
  | Text t => Text t
  end.

(** ** URL extraction: [text.match(/(https?:\/\/[^\s]+)/g)] *)

Module UrlRegex.

(** [https?:\/\/] at the start of [s]: the matched prefix and the rest.
    The optional [s] is greedy; the alternative without it is the
    backtracking branch. *)
Definition scheme (s : jsstring) : option (jsstring * jsstring) :=
  match JS.strip_prefix (JS.lit "http") s with
  | None => None
  | Some r =>
      let with_s :=
        match JS.strip_prefix (JS.lit "s") r with
        | Some r' =>
            match JS.strip_prefix (JS.lit "://") r' with
            | Some r'' => Some (JS.lit "https://", r'')
            | None => None
            end
        | None => None
        end in
      match with_s with
      | Some res => Some res
      | None =>
          match JS.strip_prefix (JS.lit "://") r with
          | Some r'' => Some (JS.lit "http://", r'')
          | None => None
          end
      end
  end.

(** One attempt of the whole pattern at the start of [s]: the scheme, then
    [[^\s]+], the longest non-empty run of non-whitespace. *)
Definition exec_at (s : jsstring) : option (jsstring * jsstring) :=
  match scheme s with
  | None => None
  | Some (sch, r) =>
      match JS.span (fun c => negb (JS.isWhiteSpace c)) r with
      | ([], _) => None
      | (body, rest) => Some (sch ++ body, rest)
      end
  end.

(** The global scan: try at the current index; on a match resume after
    it, otherwise advance one code unit. Every step consumes at least one
    code unit, so [length s] steps exhaust the string. *)
Fixpoint scan (fuel : nat) (s : jsstring) : list jsstring :=
  match fuel with
  | O => []
  | S fuel' =>
      match s with
      | [] => []
      | _ :: s' =>
          match exec_at s with
          | Some (m, rest) => m :: scan fuel' rest
          | None => scan fuel' s'
          end
      end
  end.

(** [String.prototype.match] with a global pattern: [null] when nothing
    matches, otherwise the array of all matches. *)
Definition match_g (text : jsstring) : option (list jsstring) :=
  match scan (length text) text with
  | [] => None
  | urls => Some urls
  end.

End UrlRegex.

(** [// Extract URL for preview] *)
Definition extract_metadata (text : jsstring) : Metadata :=
  match UrlRegex.match_g text with
  | Some (url0 :: _) => {| hasLinks := Some true; firstUrl := Some url0 |}
  | _ => {| hasLinks := None; firstUrl := None |}
  end.

(** ** Server state, socket messages and the trace *)

(** Messages of the push channel. *)
Inductive Msg :=
| initialContent (currentContent : list Content)
| newContent (c : Content)
| contentRemoved (cid : jsstring)
| clientCount (n : nat).

(** What a handler does to the store, to the client set and to the
    sockets, in program order. [IoEmit] records the sockets connected to
    the namespace when [io.emit] runs: they are its recipients. *)
Inductive Effect :=
| MapSet (k : jsstring) (v : Content)
| MapDelete (k : jsstring)
| SetAdd (sid : jsstring)
| SetDelete (sid : jsstring)
| SocketEmit (sid : jsstring) (m : Msg)
| IoEmit (recipients : gset jsstring) (m : Msg).

(** [sharedContent] and [connectedClients] are the globals of
    [server.cjs]; [nsp] is socket.io's own bookkeeping (the sockets of the
    default namespace). [trace] and [at_emit] are history: the effects so
    far, and for each [io.emit] so far the store as it was when the call
    ran, with the message. *)
Record World := {
  sharedContent : JSMap.t Content;
  connectedClients : gset jsstring;
  nsp : gset jsstring;
  trace : list Effect;
  at_emit : list (JSMap.t Content * Msg)
}.

Definition init : World :=
  {| sharedContent := JSMap.empty;
     connectedClients := ∅;
     nsp := ∅;
     trace := [];
     at_emit := [] |}.

(** HTTP answers: the status the handler sets (200 when it sets none) and
    what it hands to [res.json], or to [res.set] and [res.send]. *)
Inductive Body :=
| JsonError (error : string)
| JsonUpload (fileId downloadUrl : jsstring) (expires : Z)
| JsonShare (contentId : jsstring) (expires : Z)
| SendFile (contentType contentDisposition : jsstring) (contentLength : Z)
           (data : option (list byte)).

Record Response := { status : Z; body : Body }.

(** *** A state monad over [World] *)

Definition M (A : Type) : Type := World -> A * World.

Definition ret {A} (a : A) : M A := fun w => (a, w).

Definition bind {A B} (c : M A) (k : A -> M B) : M B :=
  fun w => let '(a, w') := c w in k a w'.

Declare Scope m_scope.
Delimit Scope m_scope with M.
Notation "'let*' x := c 'in' k" := (bind c (fun x => k))
  (at level 10, x name, c at level 100, k at level 200) : m_scope.
Notation "c ;;; k" := (bind c (fun _ => k))
  (at level 100, k at level 200, right associativity) : m_scope.

Definition exec {A} (c : M A) (w : World) : World := (c w).2.

(** Primitive operations: each one updates the state and logs itself. *)

Definition log (e : Effect) (w : World) : list Effect := trace w ++ [e].

Definition sharedContent_get (k : jsstring) : M (option Content) :=
  fun w => (JSMap.get k (sharedContent w), w).

Definition sharedContent_values : M (list Content) :=
  fun w => (JSMap.values (sharedContent w), w).

Definition sharedContent_entries : M (list (jsstring * Content)) :=
  fun w => (JSMap.entries (sharedContent w), w).

Definition sharedContent_set (k : jsstring) (v : Content) : M unit :=
  fun w => (tt, {| sharedContent := JSMap.set k v (sharedContent w);
                   connectedClients := connectedClients w;
                   nsp := nsp w;
                   trace := log (MapSet k v) w;
                   at_emit := at_emit w |}).

Definition sharedContent_delete (k : jsstring) : M unit :=
  fun w => (tt, {| sharedContent := JSMap.delete k (sharedContent w);
                   connectedClients := connectedClients w;
                   nsp := nsp w;
                   trace := log (MapDelete k) w;
                   at_emit := at_emit w |}).

Definition connectedClients_add (sid : jsstring) : M unit :=
  fun w => (tt, {| sharedContent := sharedContent w;
                   connectedClients := {[sid]} ∪ connectedClients w;
                   nsp := nsp w;
                   trace := log (SetAdd sid) w;
                   at_emit := at_emit w |}).

Definition connectedClients_delete (sid : jsstring) : M unit :=
  fun w => (tt, {| sharedContent := sharedContent w;
                   connectedClients := connectedClients w ∖ {[sid]};
                   nsp := nsp w;
                   trace := log (SetDelete sid) w;
                   at_emit := at_emit w |}).

Definition connectedClients_size : M nat :=
  fun w => (size (connectedClients w), w).

Definition socket_emit (sid : jsstring) (m : Msg) : M unit :=
  fun w => (tt, {| sharedContent := sharedContent w;
                   connectedClients := connectedClients w;
                   nsp := nsp w;
                   trace := log (SocketEmit sid m) w;
                   at_emit := at_emit w |}).

Definition io_emit (m : Msg) : M unit :=
  fun w => (tt, {| sharedContent := sharedContent w;
                   connectedClients := connectedClients w;
                   nsp := nsp w;
                   trace := log (IoEmit (nsp w) m) w;
                   at_emit := at_emit w ++ [(sharedContent w, m)] |}).

(** socket.io adds a socket to the namespace before it fires
    ['connection'] and removes it before it fires ['disconnect']. *)
Definition nsp_add (sid : jsstring) : M unit :=
  fun w => (tt, {| sharedContent := sharedContent w;
                   connectedClients := connectedClients w;
                   nsp := {[sid]} ∪ nsp w;
                   trace := trace w;
                   at_emit := at_emit w |}).

Definition nsp_remove (sid : jsstring) : M unit :=
  fun w => (tt, {| sharedContent := sharedContent w;
                   connectedClients := connectedClients w;
                   nsp := nsp w ∖ {[sid]};
                   trace := trace w;
                   at_emit := at_emit w |}).

Definition nsp_has (sid : jsstring) : M bool :=
  fun w => (bool_decide (sid ∈ nsp w), w).

(** ** The handlers of [server.cjs] *)

Local Open Scope m_scope.

(** [// Content expiration cleanup]: the body of the [for ... of] loop over
    [sharedContent.entries()]. The loop deletes only the entry it is
    visiting, which leaves the entries still to visit in place. *)
Fixpoint cleanup_loop (now : Z) (pending : list (jsstring * Content)) : M unit :=
  match pending with
  | [] => ret tt
  | (cid, c) :: pending' =>
      (if bool_decide (now > expiresAt c)
       then sharedContent_delete cid ;;; io_emit (contentRemoved cid)
       else ret tt) ;;;
      cleanup_loop now pending'
  end.

(** The [setInterval] callback; [now] is its [Date.now()]. *)
Definition cleanup (now : Z) : M unit :=
  let* es := sharedContent_entries in
  cleanup_loop now es.

(** [io.on('connection', ...)]. *)
Definition on_connection (sid : jsstring) : M unit :=
  connectedClients_add sid ;;;
  let* currentContent := sharedContent_values in
  socket_emit sid (initialContent currentContent) ;;;
  let* n := connectedClients_size in
  io_emit (clientCount n).

(** [socket.on('disconnect', ...)]. *)
Definition on_disconnect (sid : jsstring) : M unit :=
  connectedClients_delete sid ;;;
  let* n := connectedClients_size in
  io_emit (clientCount n).

Definition TTL : Z := 10 * 60 * 1000.

(** [app.post('/api/upload')], after the rate limiter and multer.
    [fileId] is [uuidv4()]; [now1], [now2] are the two [Date.now()]. *)
Definition upload (file : option MulterFile) (fileId : jsstring)
    (now1 now2 : Z) : M Response :=
  match file with
  | None => ret {| status := 400; body := JsonError "No file uploaded" |}
  | Some file =>
      let expires := now1 + TTL in
      let fileData :=
        {| f_id := fileId;
           filename := originalname file;
           mimetype := mf_mimetype file;
           f_size := mf_size file;
           buffer := Some (mf_buffer file);
           uploadedAt := now2;
           f_expiresAt := expires;
           downloadUrl := JS.lit "/api/download/" ++ fileId |} in
      sharedContent_set fileId (File fileData) ;;;
      let clientData := delete_buffer fileData in
      io_emit (newContent (File clientData)) ;;;
      ret {| status := 200;
             body := JsonUpload fileId (downloadUrl fileData) expires |}
  end.

(** Node refuses a header value holding a code unit other than tab,
    0x20-0x7e and 0x80-0xff: [res.set] then throws. *)
Definition header_char_ok (c : N) : bool :=
  ((c =? 9) || (32 <=? c) && (c <=? 126) || (128 <=? c) && (c <=? 255))%N.

Definition header_value_ok (value : jsstring) : bool :=
  forallb header_char_ok value.

(** The value of [Content-Disposition]; 34 is the double quote. *)
Definition disposition (f : FileData) : jsstring :=
  JS.lit "attachment; filename=" ++ 34%N :: filename f ++ [34%N].

(** [app.get('/api/download/:fileId')]; [now] is its [Date.now()]. When
    [res.set] throws, the [catch] answers 500. *)
Definition download (fileId : jsstring) (now : Z) : M Response :=
  let* fileData := sharedContent_get fileId in
  match fileData with
  | Some (File f) =>
      if bool_decide (now > f_expiresAt f) then
        sharedContent_delete fileId ;;;
        ret {| status := 410; body := JsonError "File has expired" |}
      else if header_value_ok (mimetype f) && header_value_ok (disposition f) then
        ret {| status := 200;
               body := SendFile (mimetype f) (disposition f)
                         (f_size f) (buffer f) |}
      else
        ret {| status := 500; body := JsonError "Download failed" |}
  | _ => ret {| status := 404; body := JsonError "File not found" |}
  end.

(** What reaches the server. A share-text request whose [text] is no
    string is answered without any effect and is left out of the runs. *)
Inductive Request :=
| Tick (now : Z)
| Connection (sid : jsstring)
| Disconnect (sid : jsstring)
| Upload (file : option MulterFile) (fileId : jsstring) (now1 now2 : Z)
| ShareText (text type : option jsstring) (contentId : jsstring) (now1 now2 : Z)
| Download (fileId : jsstring) (now : Z).

Section Server.

(** The markdown renderer, an external collaborator. *)
Variable marked : jsstring -> jsstring.

(** [app.post('/api/share-text')], after the rate limiter and the body
    parser, on a body whose [text] and [type] are strings or absent
    ([None]); [share_text_json] extends it to the other JSON values, which
    change nothing. [contentId] is [uuidv4()]; [now1], [now2] are the two
    [Date.now()]. *)
Definition share_text (text type : option jsstring) (contentId : jsstring)
    (now1 now2 : Z) : M Response :=
  let type := default (JS.lit "text") type in
  match text with
  | None => ret {| status := 400; body := JsonError "Text content is required" |}
  | Some text =>
      if bool_decide (text = []) || bool_decide (length (JS.trim text) = 0%nat)
      then ret {| status := 400; body := JsonError "Text content is required" |}
      else
        let expires := now1 + TTL in
        let processed :=
          if bool_decide (type = JS.lit "markdown") then marked text else text in
        let contentData :=
          {| t_id := contentId;
             content := text;
             processedContent := processed;
             metadata := extract_metadata text;
             sharedAt := now2;
             t_expiresAt := expires |} in
        sharedContent_set contentId (Text contentData) ;;;
        io_emit (newContent (Text contentData)) ;;;
        ret {| status := 200; body := JsonShare contentId expires |}
  end.

(** One request, handled to completion; the HTTP routes answer. The
    ['disconnect'] handler exists only on a connected socket. *)
Definition handle (r : Request) : M (option Response) :=
  match r with
  | Tick now => cleanup now ;;; ret None
  | Connection sid => nsp_add sid ;;; on_connection sid ;;; ret None
  | Disconnect sid =>
      let* connected := nsp_has sid in
      if connected : bool
      then nsp_remove sid ;;; on_disconnect sid ;;; ret None
      else ret None
  | Upload file fileId now1 now2 =>
      let* res := upload file fileId now1 now2 in ret (Some res)
  | ShareText text type contentId now1 now2 =>
      let* res := share_text text type contentId now1 now2 in ret (Some res)
  | Download fileId now =>
      let* res := download fileId now in ret (Some res)
  end.

Fixpoint run (rs : list Request) (w : World) : World :=
  match rs with
  | [] => w
  | r :: rs' => run rs' (exec (handle r) w)
  end.

Definition reachable (w : World) : Prop := exists rs, w = run rs init.

End Server.

(** ** The client hook [useSocket] *)

Module Client.

(** [connectedClients] and [sharedContent] of the hook's state. *)
Record State := {
  connectedClients : nat;
  sharedContent : list Content
}.

Definition init : State := {| connectedClients := 0; sharedContent := [] |}.

(** The [newSocket.on(...)] handlers: the snapshot replaces the list, new
    content is put in front, removed content is filtered out. *)
Definition on (m : Msg) (prev : State) : State :=
  match m with
  | clientCount count =>
      {| connectedClients := count; sharedContent := sharedContent prev |}
  | initialContent content =>
      {| connectedClients := connectedClients prev; sharedContent := content |}
  | newContent c =>
      {| connectedClients := connectedClients prev;
         sharedContent := c :: sharedContent prev |}
  | contentRemoved contentId =>
      {| connectedClients := connectedClients prev;
         sharedContent :=
           filter (λ item, content_id item ≠ contentId) (sharedContent prev) |}
  end.

Definition view (ms : list Msg) : State :=
  foldl (λ st m, on m st) init ms.

End Client.

(** ** Reading a trace *)

(** The store effects of a trace, applied to a store. *)
Definition apply_effect (m : JSMap.t Content) (e : Effect) : JSMap.t Content :=
  match e with
  | MapSet k v => JSMap.set k v m
  | MapDelete k => JSMap.delete k m
  | _ => m
  end.

Definition replay (m : JSMap.t Content) (tr : list Effect) : JSMap.t Content :=
  foldl apply_effect m tr.

(** The messages broadcast with [io.emit], in order. *)
Definition broadcasts (tr : list Effect) : list Msg :=
  tr ≫= λ e, match e with IoEmit _ m => [m] | _ => [] end.

(** The messages that reach socket [sid], in order. *)
Definition delivered (sid : jsstring) (tr : list Effect) : list Msg :=
  tr ≫= λ e,
    match e with
    | SocketEmit sid' m => if decide (sid' = sid) then [m] else []
    | IoEmit to m => if decide (sid ∈ to) then [m] else []
    | _ => []
    end.

(** The initial snapshots among them. *)
Definition snapshots (ms : list Msg) : list (list Content) :=
  ms ≫= λ m, match m with initialContent cs => [cs] | _ => [] end.

(** A content broadcast is justified by the effect just before it: the
    insertion of the entry it announces, or the deletion of the id it
    announces. *)
Definition justified (prev : option Effect) (e : Effect) : Prop :=
  match e with
  | IoEmit _ (newContent c) =>
      ∃ v, prev = Some (MapSet (content_id c) v) ∧ entry_view v = c
  | IoEmit _ (contentRemoved cid) => prev = Some (MapDelete cid)
  | _ => True
  end.

Fixpoint well_ordered (prev : option Effect) (tr : list Effect) : Prop :=
  match tr with
  | [] => True
  | e :: tr' => justified prev e ∧ well_ordered (Some e) tr'
  end.

(** The effect just before position [length pre], if any. *)
Definition last_or (prev : option Effect) (pre : list Effect) : option Effect :=
  match last pre with Some e => Some e | None => prev end.

(** ** The expiration timer, as a function of the store *)

(** Keys of the entries the timer callback finds expired, in store order. *)
Definition expired_keys (now : Z) (es : list (jsstring * Content)) : list jsstring :=
  (filter (λ e, now > expiresAt e.2) es).*1.

(** What the callback does for them: each is deleted, then announced. *)
Definition removal_effects (to : gset jsstring) (ks : list jsstring) : list Effect :=
  ks ≫= λ k, [MapDelete k; IoEmit to (contentRemoved k)].

(** The store at each of these announcements. *)
Fixpoint removal_points (m : JSMap.t Content) (ks : list jsstring)
    : list (JSMap.t Content * Msg) :=
  match ks with
  | [] => []
  | k :: ks' =>
      (JSMap.delete k m, contentRemoved k) :: removal_points (JSMap.delete k m) ks'
  end.

(** The store at each [io.emit] of a trace, when its store effects are
    applied from store [m]. *)
Fixpoint emission_points (m : JSMap.t Content) (tr : list Effect)
    : list (JSMap.t Content * Msg) :=
  match tr with
  | [] => []
  | e :: tr' =>
      match e with IoEmit _ msg => [(m, msg)] | _ => [] end
      ++ emission_points (apply_effect m e) tr'
  end.

(** How one request extends the histories: the store effects it logs are
    the change of the store, each [io.emit] ran on the store that these
    effects give at that point, and each content broadcast is justified. *)
Definition extends (w w' : World) : Prop :=
  ∃ suffix,
    trace w' = trace w ++ suffix
    ∧ sharedContent w' = replay (sharedContent w) suffix
    ∧ at_emit w' = at_emit w ++ emission_points (sharedContent w) suffix
    ∧ ∀ prev, well_ordered prev suffix.

(** ** Answers of the download route *)

Definition not_found : Response :=
  {| status := 404; body := JsonError "File not found" |}.

Definition gone : Response :=
  {| status := 410; body := JsonError "File has expired" |}.



(** ** URLs, in the words of the specification *)

(** [http://] or [https://] followed by non-whitespace. *)
Definition is_url (u : jsstring) : Prop :=
  ∃ body,
    (u = JS.lit "http://" ++ body ∨ u = JS.lit "https://" ++ body)
    ∧ body ≠ []
    ∧ Forall (λ c, JS.isWhiteSpace c = false) body.

(** The non-whitespace run ends where [post] starts. *)
Definition ends_run (post : jsstring) : Prop :=
  match post with
  | [] => True
  | c :: _ => JS.isWhiteSpace c = true
  end.

(** [u] is the match of the pattern at offset [i] of [text]. *)
Definition url_at (text : jsstring) (i : nat) (u : jsstring) : Prop :=
  ∃ pre post,
    text = pre ++ u ++ post ∧ length pre = i ∧ is_url u ∧ ends_run post.

(** [u] is the first match in [text]. *)
Definition first_url (text u : jsstring) : Prop :=
  ∃ i, url_at text i u ∧ ∀ j u', (j < i)%nat → ¬ url_at text j u'.

(** What the metadata says about the links of [text]. *)
Definition link_spec (text : jsstring) (md : Metadata) : Prop :=
  match md with
  | {| hasLinks := Some true; firstUrl := Some u |} => first_url text u
  | {| hasLinks := None; firstUrl := None |} => ∀ i u, ¬ url_at text i u
  | _ => False
  end.

(** ** Example inputs *)

(** A renderer for the examples, none of which asks for markdown. *)
Definition no_markdown : jsstring → jsstring := λ text, text.

(** A stand-in for [marked] that wraps the text in a paragraph. *)
Definition render_paragraph : jsstring → jsstring :=
  λ text, JS.lit "<p>" ++ text ++ JS.lit "</p>".

Definition report_pdf : MulterFile :=
  {| originalname := JS.lit "report.pdf";
     mf_mimetype := JS.lit "application/pdf";
     mf_size := 3;
     mf_buffer := ["%"%byte; "P"%byte; "D"%byte] |}.

(** The entry stored by an upload of [report_pdf] under [fileId] at [now]. *)
Definition report_entry (fileId : string) (now : Z) : FileData :=
  {| f_id := JS.lit fileId;
     filename := originalname report_pdf;
     mimetype := mf_mimetype report_pdf;
     f_size := mf_size report_pdf;
     buffer := Some (mf_buffer report_pdf);
     uploadedAt := now;
     f_expiresAt := now + TTL;
     downloadUrl := JS.lit "/api/download/" ++ JS.lit fileId |}.

(** A file whose name holds the euro sign, code unit 8364, and the entry
    and the state after its upload under id [e] at time 0. *)
Definition euro_pdf : MulterFile :=
  {| originalname := 8364%N :: JS.lit ".pdf";
     mf_mimetype := JS.lit "application/pdf";
     mf_size := 3;
     mf_buffer := ["%"%byte; "P"%byte; "D"%byte] |}.


Definition euro_upload : World :=
  exec (upload (Some euro_pdf) (JS.lit "e") 0 0) init.

(** One upload, at time 0. *)
Definition one_upload : World :=
  exec (upload (Some report_pdf) (JS.lit "a") 0 0) init.

(** Two uploads, at times 0 and 5. *)
Definition two_uploads : World :=
  exec (upload (Some report_pdf) (JS.lit "b") 5 5) one_upload.

(** A store holding one text entry, shared at time 0. *)
Definition hello_text : TextData :=
  {| t_id := JS.lit "t";
     content := JS.lit "hello";
     processedContent := JS.lit "hello";
     metadata := extract_metadata (JS.lit "hello");
     sharedAt := 0;
     t_expiresAt := 0 + TTL |}.

Definition one_text : World :=
  exec (share_text no_markdown (Some (JS.lit "hello")) None (JS.lit "t") 0 0) init.


(** ** The upload filter: multer's [fileFilter] *)

(** [s.startsWith(p)]. *)
Definition startsWith (s p : jsstring) : bool :=
  match JS.strip_prefix p s with Some _ => true | None => false end.

Definition allowedTypes : list jsstring :=
  [JS.lit "image/"; JS.lit "video/"; JS.lit "audio/"; JS.lit "text/";
   JS.lit "application/pdf";
   JS.lit "application/zip"; JS.lit "application/x-zip-compressed";
   JS.lit "application/msword";
   JS.lit "application/vnd.openxmlformats-officedocument";
   JS.lit "application/json"; JS.lit "application/javascript"].

(** The two calls of the callback [cb]. *)
Inductive FilterResult :=
| cb_accept
| cb_error (message : string).

Definition fileFilter (mimetype : jsstring) : FilterResult :=
  let isAllowed := existsb (λ type, startsWith mimetype type) allowedTypes in
  if isAllowed then cb_accept else cb_error "File type not allowed".

(** ** The advertised address: [getLocalIP], [PORT], the QR-code URL *)

(** An entry of [os.networkInterfaces()]. *)
Record InterfaceInfo := {
  family : jsstring;
  internal : bool;
  address : jsstring
}.

(** The inner loop of [getLocalIP], returning at the first hit. *)
Fixpoint first_external (infos : list InterfaceInfo) : option jsstring :=
  match infos with
  | [] => None
  | interfaceInfo :: infos' =>
      if bool_decide (family interfaceInfo = JS.lit "IPv4")
         && negb (internal interfaceInfo)
      then Some (address interfaceInfo)
      else first_external infos'
  end.

(** [getLocalIP]; [interfaces] lists the properties of
    [os.networkInterfaces()] in the order [for ... in] visits them. *)
Fixpoint getLocalIP (interfaces : list (jsstring * list InterfaceInfo)) : jsstring :=
  match interfaces with
  | [] => JS.lit "localhost"
  | (_, infos) :: interfaces' =>
      match first_external infos with
      | Some addr => addr
      | None => getLocalIP interfaces'
      end
  end.

(** [process.env.PORT || 3001], as the template literals print it. *)
Definition PORT (env_PORT : option jsstring) : jsstring :=
  match env_PORT with
  | Some (c :: p) => c :: p
  | _ => JS.lit "3001"
  end.

(** The [url] of [/api/qr-code] and of the start-up banner. *)
Definition network_url (localIP port : jsstring) : jsstring :=
  JS.lit "http://" ++ localIP ++ JS.lit ":" ++ port.

(** The body of [/api/status]. *)
Record Status := {
  st_server : string;
  st_localIP : jsstring;
  st_port : jsstring;
  st_connectedClients : nat;
  st_activeContent : nat
}.

Definition api_status (localIP port : jsstring) (w : World) : Status :=
  {| st_server := "running";
     st_localIP := localIP;
     st_port := port;
     st_connectedClients := size (connectedClients w);
     st_activeContent := JSMap.size (sharedContent w) |}.

(** ** The share-text route on any JSON body *)

(** A property of [req.body] as the handler looks at it: a string, or a
    value of another kind, of which only the truthiness matters (a number
    is falsy when it is 0; arrays and objects are truthy). *)
Inductive JsonValue :=
| JNull
| JBool (b : bool)
| JNumber (is_zero : bool)
| JString (s : jsstring)
| JArray
| JObject.

Definition truthy (v : JsonValue) : bool :=
  match v with
  | JNull => false
  | JBool b => b
  | JNumber is_zero => negb is_zero
  | JString s => negb (bool_decide (s = []))
  | JArray | JObject => true
  end.

(** Only a string can be [=== 'markdown']. *)
Definition as_string (v : JsonValue) : option jsstring :=
  match v with JString s => Some s | _ => None end.

(** [app.post('/api/share-text')] with [text] and [type] any JSON values
    ([None]: absent). A falsy [text] is refused by [!text]; on a truthy
    [text] that is no string, [text.trim] is no function, the call throws
    and the [catch] answers 500; a string goes through [share_text]. *)
Definition share_text_json (marked : jsstring → jsstring)
    (text type : option JsonValue) (contentId : jsstring)
    (now1 now2 : Z) : M Response :=
  match text with
  | None => share_text marked None (type ≫= as_string) contentId now1 now2
  | Some (JString s) =>
      share_text marked (Some s) (type ≫= as_string) contentId now1 now2
  | Some v =>
      if truthy v
      then ret {| status := 500; body := JsonError "Failed to share text" |}
      else ret {| status := 400; body := JsonError "Text content is required" |}
  end.

(** ** The text form [TextShare] and the list item [ContentItem] *)

Module TextShare.

(** [urlRegex.test(content)] on a fresh pattern: search from index 0. *)
Fixpoint urlRegex_test (content : jsstring) : bool :=
  match UrlRegex.exec_at content with
  | Some _ => true
  | None =>
      match content with
      | [] => false
      | _ :: content' => urlRegex_test content'
      end
  end.

(** [/[*_`#\[\]]/.test(content)]. *)
Definition markdownRegex_test (content : jsstring) : bool :=
  existsb (λ c, bool_decide (c ∈ [42; 95; 96; 35; 91; 93]%N)) content.

Definition detectContentType (content : jsstring) : string :=
  if urlRegex_test content then "Contains links"
  else if markdownRegex_test content then "Markdown detected"
  else "Plain text".

(** [handleSubmit]: the body posted to [/api/share-text], or nothing when
    the trimmed text is empty. *)
Definition handleSubmit (text shareType : jsstring)
    : option (option jsstring * option jsstring) :=
  if bool_decide (JS.trim text = []) then None
  else Some (Some text, Some shareType).

End TextShare.

(** [ContentItem] renders the raw content through [ReactMarkdown] when
    [item.processedContent && item.content !== item.processedContent]. *)
Definition renders_markdown (item : TextData) : bool :=
  negb (bool_decide (processedContent item = []))
  && negb (bool_decide (content item = processedContent item)).

(** ** Invariant of the stored entries *)

(** An entry is stored under its own id; a file entry holds its buffer and
    its download URL names its id; the metadata of a text entry is that of
    its raw content. *)
Definition entry_ok (k : jsstring) (v : Content) : Prop :=
  content_id v = k
  ∧ match v with
    | File f =>
        is_Some (buffer f) ∧ downloadUrl f = JS.lit "/api/download/" ++ k
    | Text t => metadata t = extract_metadata (content t)
    end.

(** The list a client at socket [sid] shows, and its device count. *)
Definition client_view (sid : jsstring) (w : World) : Client.State :=
  Client.view (delivered sid (trace w)).

(** ** What the routes store *)

(** The [fileData] of an upload and the [contentData] of a text share. *)
Definition fileData_of (file : MulterFile) (fileId : jsstring)
    (now1 now2 : Z) : FileData :=
  {| f_id := fileId;
     filename := originalname file;
     mimetype := mf_mimetype file;
     f_size := mf_size file;
     buffer := Some (mf_buffer file);
     uploadedAt := now2;
     f_expiresAt := now1 + TTL;
     downloadUrl := JS.lit "/api/download/" ++ fileId |}.

Definition contentData_of (marked : jsstring → jsstring)
    (text : jsstring) (type : option jsstring) (contentId : jsstring)
    (now1 now2 : Z) : TextData :=
  {| t_id := contentId;
     content := text;
     processedContent :=
       if bool_decide (default (JS.lit "text") type = JS.lit "markdown")
       then marked text else text;
     metadata := extract_metadata text;
     sharedAt := now2;
     t_expiresAt := now1 + TTL |}.

(** The store after one request, read off the handlers. *)
Definition store_after (marked : jsstring → jsstring) (r : Request)
    (m : JSMap.t Content) : JSMap.t Content :=
  match r with
  | Tick now => filter (λ e, e.1 ∉ expired_keys now m) m
  | Connection _ | Disconnect _ => m
  | Upload (Some file) fileId now1 now2 =>
      JSMap.set fileId (File (fileData_of file fileId now1 now2)) m
  | Upload None _ _ _ => m
  | ShareText (Some text) type contentId now1 now2 =>
      if decide (Forall (λ c, JS.isWhiteSpace c = true) text) then m
      else JSMap.set contentId
             (Text (contentData_of marked text type contentId now1 now2)) m
  | ShareText None _ _ _ _ => m
  | Download fileId now =>
      match JSMap.get fileId m with
      | Some (File f) =>
          if decide (f_expiresAt f < now) then JSMap.delete fileId m else m
      | _ => m
      end
  end.

(** The effects of one request, and the two socket sets after it, read
    off the handlers. *)
Definition effects (marked : jsstring → jsstring) (r : Request)
    (w : World) : list Effect :=
  match r with
  | Tick now => removal_effects (nsp w) (expired_keys now (sharedContent w))
  | Connection sid =>
      [SetAdd sid;
       SocketEmit sid (initialContent (JSMap.values (sharedContent w)));
       IoEmit ({[sid]} ∪ nsp w)
         (clientCount (size ({[sid]} ∪ connectedClients w)))]
  | Disconnect sid =>
      if decide (sid ∈ nsp w)
      then [SetDelete sid;
            IoEmit (nsp w ∖ {[sid]})
              (clientCount (size (connectedClients w ∖ {[sid]})))]
      else []
  | Upload (Some file) fileId now1 now2 =>
      [MapSet fileId (File (fileData_of file fileId now1 now2));
       IoEmit (nsp w)
         (newContent (File (delete_buffer (fileData_of file fileId now1 now2))))]
  | Upload None _ _ _ => []
  | ShareText (Some text) type contentId now1 now2 =>
      if decide (Forall (λ c, JS.isWhiteSpace c = true) text) then []
      else [MapSet contentId
              (Text (contentData_of marked text type contentId now1 now2));
            IoEmit (nsp w)
              (newContent
                 (Text (contentData_of marked text type contentId now1 now2)))]
  | ShareText None _ _ _ _ => []
  | Download fileId now =>
      match JSMap.get fileId (sharedContent w) with
      | Some (File f) =>
          if decide (f_expiresAt f < now) then [MapDelete fileId] else []
      | _ => []
      end
  end.

Definition clients_after (r : Request) (w : World) : gset jsstring :=
  match r with
  | Connection sid => {[sid]} ∪ connectedClients w
  | Disconnect sid =>
      if decide (sid ∈ nsp w) then connectedClients w ∖ {[sid]}
      else connectedClients w
  | _ => connectedClients w
  end.

Definition nsp_after (r : Request) (w : World) : gset jsstring :=
  match r with
  | Connection sid => {[sid]} ∪ nsp w
  | Disconnect sid => if decide (sid ∈ nsp w) then nsp w ∖ {[sid]} else nsp w
  | _ => nsp w
  end.

(** A request that neither connects or disconnects socket [sid] nor
    stores anything under id [k]. *)
Definition leaves_alone (sid k : jsstring) (r : Request) : Prop :=
  match r with
  | Connection s | Disconnect s => s ≠ sid
  | Upload _ fileId _ _ => fileId ≠ k
  | ShareText _ _ contentId _ _ => contentId ≠ k
  | Tick _ | Download _ _ => True
  end.

(** A run with two clients and two uploads. *)
Definition busy_run : list Request :=
  [Connection (JS.lit "s0"); Upload (Some report_pdf) (JS.lit "a") 0 0;
   Connection (JS.lit "s1"); Upload (Some report_pdf) (JS.lit "b") 5 5].


(** * Properties *)



(** ** Lists *)

Lemma filter_ext_elem {A} (P1 P2 : A → Prop)
    `{!∀ x, Decision (P1 x), !∀ x, Decision (P2 x)} (l : list A) :
  (∀ x, x ∈ l → P1 x ↔ P2 x) → filter P1 l = filter P2 l.
Proof.
  induction l as [|a l IH]; intros Hiff; [done|].
  rewrite !filter_cons.
  rewrite IH by (intros x Hx; apply Hiff; by apply list_elem_of_further).
  apply decide_ext, Hiff, list_elem_of_here.
Qed.

Lemma filter_all {A} (P : A → Prop) `{!∀ x, Decision (P x)} (l : list A) :
  (∀ x, P x) → filter P l = l.
Proof.
  intros HP. induction l as [|a l IH]; [done|].
  by rewrite filter_cons_True, IH.
Qed.

(** ** The [Map] model *)

Module JSMapFacts.
Section JSMapFacts.
Context {V : Type}.
Implicit Types (m : JSMap.t V) (k : jsstring) (v : V).

Lemma get_set_eq k v m : JSMap.get k (JSMap.set k v m) = Some v.
Proof.
  induction m as [|[k' v'] m IH]; simpl.
  - by rewrite decide_True.
  - destruct (decide (k' = k)) as [->|Hne]; simpl.
    + by rewrite decide_True.
    + by rewrite decide_False.
Qed.

Lemma get_set_ne k k' v m :
  k ≠ k' → JSMap.get k' (JSMap.set k v m) = JSMap.get k' m.
Proof.
  intros Hne. induction m as [|[k0 v0] m IH]; simpl.
  - by rewrite decide_False.
  - destruct (decide (k0 = k)) as [->|Hne0]; simpl.
    + by rewrite !decide_False.
    + by rewrite IH.
Qed.

Lemma delete_filter k m :
  JSMap.delete k m = filter (λ e, e.1 ≠ k) m.
Proof.
  induction m as [|[k' v'] m IH]; [done|].
  rewrite filter_cons. cbn [JSMap.delete fst].
  destruct (decide (k' = k)) as [->|Hne].
  - by rewrite decide_False by (intros H; by apply H).
  - by rewrite decide_True, IH.
Qed.

Lemma get_None k m : JSMap.get k m = None ↔ k ∉ JSMap.keys m.
Proof.
  unfold JSMap.keys. induction m as [|[k' v'] m IH]; simpl.
  - split; [intros _; apply not_elem_of_nil | done].
  - rewrite not_elem_of_cons. destruct (decide (k' = k)) as [->|Hne].
    + split; [done | intros [? _]; done].
    + rewrite IH. split; [by intros ? | by intros [_ ?]].
Qed.

Lemma get_Some_elem k v m : JSMap.get k m = Some v → (k, v) ∈ m.
Proof.
  induction m as [|[k' v'] m IH]; simpl; [done|].
  destruct (decide (k' = k)) as [->|Hne].
  - intros [= ->]. apply list_elem_of_here.
  - intros H. apply list_elem_of_further. by apply IH.
Qed.

Lemma elem_get_Some k v m :
  JSMap.wf m → (k, v) ∈ m → JSMap.get k m = Some v.
Proof.
  unfold JSMap.wf, JSMap.keys.
  induction m as [|[k' v'] m IH]; simpl; [by intros _ ?%elem_of_nil|].
  rewrite NoDup_cons. intros [Hk Hnd] [[= -> ->]|Hin]%elem_of_cons.
  - by rewrite decide_True.
  - destruct (decide (k' = k)) as [->|Hne]; [|by apply IH].
    exfalso. apply Hk. apply list_elem_of_fmap. by exists (k, v).
Qed.

Lemma get_delete_eq k m : JSMap.get k (JSMap.delete k m) = None.
Proof.
  apply get_None. unfold JSMap.keys. rewrite delete_filter.
  intros ([k' v'] & -> & [Hne _]%list_elem_of_filter)%list_elem_of_fmap.
  by apply Hne.
Qed.

Lemma get_delete_ne k k' m :
  k ≠ k' → JSMap.get k' (JSMap.delete k m) = JSMap.get k' m.
Proof.
  intros Hne. induction m as [|[k0 v0] m IH]; simpl; [done|].
  destruct (decide (k0 = k)) as [->|Hne0]; simpl.
  - by rewrite decide_False.
  - by rewrite IH.
Qed.

Lemma keys_set k v m :
  JSMap.keys (JSMap.set k v m) =
  if decide (k ∈ JSMap.keys m) then JSMap.keys m else JSMap.keys m ++ [k].
Proof.
  unfold JSMap.keys. induction m as [|[k' v'] m IH].
  - by rewrite decide_False by apply not_elem_of_nil.
  - cbn [JSMap.set]. destruct (decide (k' = k)) as [->|Hne].
    + by rewrite decide_True by apply list_elem_of_here.
    + rewrite !fmap_cons, IH. cbn [fst].
      destruct (decide (k ∈ m.*1)) as [Hin|Hnin].
      * by rewrite decide_True by by apply list_elem_of_further.
      * rewrite decide_False; [done|].
        intros [?|?]%elem_of_cons; congruence.
Qed.

Lemma wf_empty : JSMap.wf (JSMap.empty (V:=V)).
Proof. apply NoDup_nil_2. Qed.

Lemma wf_set k v m : JSMap.wf m → JSMap.wf (JSMap.set k v m).
Proof.
  unfold JSMap.wf. rewrite keys_set. intros Hnd.
  destruct (decide (k ∈ JSMap.keys m)) as [Hin|Hnin]; [done|].
  apply NoDup_app. split_and!; [done| |apply NoDup_singleton].
  intros x Hx ->%list_elem_of_singleton. done.
Qed.

Lemma wf_delete k m : JSMap.wf m → JSMap.wf (JSMap.delete k m).
Proof.
  unfold JSMap.wf, JSMap.keys. rewrite delete_filter.
  induction m as [|[k' v'] m IH]; [done|]. simpl.
  rewrite NoDup_cons, filter_cons. intros [Hk Hnd]. simpl.
  destruct (decide (k' ≠ k)); [|by apply IH].
  simpl. apply NoDup_cons. split; [|by apply IH].
  intros ([k0 v0] & Heq & [_ Hin]%list_elem_of_filter)%list_elem_of_fmap.
  simpl in Heq. subst k0. apply Hk. apply list_elem_of_fmap. by exists (k', v0).
Qed.

(** Deleting a list of keys, one after the other. *)
Lemma foldl_delete (ks : list jsstring) m :
  foldl (λ m k, JSMap.delete k m) m ks = filter (λ e, e.1 ∉ ks) m.
Proof.
  revert m. induction ks as [|k ks IH]; intros m; simpl.
  - symmetry. apply filter_all. intros e. apply not_elem_of_nil.
  - rewrite IH, delete_filter, list_filter_filter.
    apply list_filter_iff. intros e. rewrite not_elem_of_cons. tauto.
Qed.

End JSMapFacts.
End JSMapFacts.

(** ** The expiration timer *)

Lemma cleanup_loop_exec now es w :
  exec (cleanup_loop now es) w =
  {| sharedContent := foldl (λ m k, JSMap.delete k m) (sharedContent w) (expired_keys now es);
     connectedClients := connectedClients w;
     nsp := nsp w;
     trace := trace w ++ removal_effects (nsp w) (expired_keys now es);
     at_emit := at_emit w
                ++ removal_points (sharedContent w) (expired_keys now es) |}.
Proof.
  revert w. induction es as [|[cid c] es IH]; intros w.
  - unfold exec, expired_keys, removal_effects. simpl.
    rewrite !app_nil_r. by destruct w.
  - unfold expired_keys. rewrite filter_cons. cbn [snd].
    unfold exec in *. cbn [cleanup_loop bind].
    destruct (decide (now > expiresAt c)) as [Hexp|Hlive].
    + rewrite bool_decide_eq_true_2 by done.
      cbn [bind sharedContent_delete io_emit fst snd].
      rewrite IH. cbn [sharedContent connectedClients nsp trace at_emit log].
      unfold removal_effects, log.
      cbn [fmap list_fmap fst mbind list_bind foldl trace nsp removal_points].
      f_equal; rewrite <-!app_assoc; done.
    + rewrite bool_decide_eq_false_2 by done.
      cbn [bind ret]. by rewrite IH.
Qed.

Lemma cleanup_exec now w :
  exec (cleanup now) w =
  {| sharedContent := filter (λ e, e.1 ∉ expired_keys now (sharedContent w)) (sharedContent w);
     connectedClients := connectedClients w;
     nsp := nsp w;
     trace := trace w ++ removal_effects (nsp w) (expired_keys now (sharedContent w));
     at_emit := at_emit w
                ++ removal_points (sharedContent w)
                     (expired_keys now (sharedContent w)) |}.
Proof.
  unfold cleanup, exec, bind, sharedContent_entries, JSMap.entries.
  pose proof (cleanup_loop_exec now (sharedContent w) w) as H.
  unfold exec in H. rewrite H. by rewrite JSMapFacts.foldl_delete.
Qed.

(** With each key held once, the keys found expired are the keys of the
    expired entries and of no other entry. *)
Lemma expired_keys_wf now (m : JSMap.t Content) :
  JSMap.wf m →
  filter (λ e, e.1 ∉ expired_keys now m) m = filter (λ e, now ≤ expiresAt e.2) m.
Proof.
  intros Hwf. apply filter_ext_elem.
  intros [k c] Hin. cbn [fst snd]. unfold expired_keys. split.
  - intros Hk. destruct (decide (now ≤ expiresAt c)) as [|Hn]; [done|].
    exfalso. apply Hk. apply list_elem_of_fmap. exists (k, c). split; [done|].
    apply list_elem_of_filter. split; [simpl; lia | done].
  - intros Hle ([k' c'] & Heq & [Hexp Hin']%list_elem_of_filter)%list_elem_of_fmap.
    simpl in Heq, Hexp. subst k'.
    pose proof (JSMapFacts.elem_get_Some _ _ _ Hwf Hin) as H1.
    pose proof (JSMapFacts.elem_get_Some _ _ _ Hwf Hin') as H2.
    assert (c = c') by congruence. subst c'. lia.
Qed.

Lemma expired_keys_after now (m : JSMap.t Content) :
  expired_keys now (filter (λ e, e.1 ∉ expired_keys now m) m) = [].
Proof.
  unfold expired_keys at 1. rewrite list_filter_filter.
  rewrite (filter_ext_elem _ (λ _, False)).
  - by induction m as [|e m IH]; [|rewrite filter_cons_False by tauto].
  - intros [k c] Hin. cbn [fst snd]. split; [|done].
    intros [Hexp Hk]. apply Hk. apply list_elem_of_fmap.
    exists (k, c). split; [done|]. by apply list_elem_of_filter.
Qed.

(** C5 (amended). On a store holding each key once, the timer callback run
    at [now] keeps exactly the entries with [now <= expiresAt] (it removes
    exactly those with [expiresAt < now]; an entry with [expiresAt = now]
    stays), and for precisely the removed ids, in store order, it deletes
    the entry and then broadcasts [contentRemoved]. *)
Theorem cleanup_removes_exactly_expired now w :
  JSMap.wf (sharedContent w) →
  sharedContent (exec (cleanup now) w)
    = filter (λ e, now ≤ expiresAt e.2) (sharedContent w)
  ∧ trace (exec (cleanup now) w)
    = trace w ++ removal_effects (nsp w)
        (filter (λ e, expiresAt e.2 < now) (sharedContent w)).*1.
Proof.
  intros Hwf. rewrite cleanup_exec. cbn [sharedContent trace]. split.
  - by apply expired_keys_wf.
  - unfold expired_keys. do 3 f_equal. apply list_filter_iff. intros e. lia.
Qed.

Lemma cleanup_removes_exactly_expired_witness :
  JSMap.wf (sharedContent two_uploads)
  ∧ sharedContent (exec (cleanup 600001) two_uploads)
    = filter (λ e, 600001 ≤ expiresAt e.2) (sharedContent two_uploads)
  ∧ trace (exec (cleanup 600001) two_uploads)
    = trace two_uploads ++ removal_effects (nsp two_uploads)
        (filter (λ e, expiresAt e.2 < 600001) (sharedContent two_uploads)).*1.
Proof.
  assert (Hwf : JSMap.wf (sharedContent two_uploads)).
  { apply (bool_decide_unpack _). vm_compute. exact I. }
  split; [exact Hwf|].
  apply (cleanup_removes_exactly_expired 600001 two_uploads Hwf).
Defined.

(** C5 as stated fails at the boundary: an entry with [expiresAt = now] has
    [expiresAt <= now], yet the callback run at [now] leaves it in the
    store and broadcasts nothing; the store is not the one the claim
    describes, with every entry of [expiresAt <= now] gone. *)
Lemma cleanup_spares_entry_at_expiry :
  let w := one_upload in
  ∃ c, JSMap.get (JS.lit "a") (sharedContent w) = Some c
       ∧ expiresAt c ≤ 600000
       ∧ JSMap.get (JS.lit "a") (sharedContent (exec (cleanup 600000) w)) = Some c
       ∧ trace (exec (cleanup 600000) w) = trace w
       ∧ sharedContent (exec (cleanup 600000) w)
         ≠ filter (λ e, ¬ expiresAt e.2 ≤ 600000) (sharedContent w).
Proof.
  eexists. split; [vm_compute; reflexivity|].
  split; [vm_compute; discriminate|].
  split; [vm_compute; reflexivity|].
  split; [vm_compute; reflexivity|].
  vm_compute. discriminate.
Qed.

(** C7. The timer callback is idempotent: run a second time with the same
    [now], it deletes nothing and broadcasts nothing; the whole state,
    trace included, is as the first run left it. *)
Theorem cleanup_idempotent now w :
  exec (cleanup now) (exec (cleanup now) w) = exec (cleanup now) w.
Proof.
  rewrite (cleanup_exec now (exec (cleanup now) w)).
  rewrite (cleanup_exec now w).
  cbn [sharedContent connectedClients nsp trace at_emit].
  rewrite expired_keys_after. unfold removal_effects.
  cbn [mbind list_bind removal_points].
  rewrite !app_nil_r. f_equal.
  apply filter_all. intros e. apply not_elem_of_nil.
Qed.

(** ** Download *)


(** C10. The download route serves file entries only: when the stored
    entry is a text entry the answer is 404 whatever the time, expired or
    not, and nothing changes. *)
Theorem download_text_not_found fileId now w t :
  JSMap.get fileId (sharedContent w) = Some (Text t) →
  download fileId now w = (not_found, w).
Proof.
  intros H. unfold download, bind, sharedContent_get. by rewrite H.
Qed.

Lemma download_text_not_found_witness :
  JSMap.get (JS.lit "t") (sharedContent one_text) = Some (Text hello_text)
  ∧ download (JS.lit "t") 1000 one_text = (not_found, one_text).
Proof.
  assert (H : JSMap.get (JS.lit "t") (sharedContent one_text) = Some (Text hello_text))
    by (vm_compute; reflexivity).
  split; [exact H|].
  apply (download_text_not_found (JS.lit "t") 1000 one_text hello_text H).
Defined.




(** ** Reading a trace *)

Lemma delivered_app sid tr1 tr2 :
  delivered sid (tr1 ++ tr2) = delivered sid tr1 ++ delivered sid tr2.
Proof. unfold delivered. apply bind_app. Qed.

Lemma snapshots_app ms1 ms2 :
  snapshots (ms1 ++ ms2) = snapshots ms1 ++ snapshots ms2.
Proof. unfold snapshots. apply bind_app. Qed.

Lemma replay_app m tr1 tr2 :
  replay m (tr1 ++ tr2) = replay (replay m tr1) tr2.
Proof. unfold replay. apply foldl_app. Qed.

Lemma replay_removal m to ks :
  replay m (removal_effects to ks) = foldl (λ m k, JSMap.delete k m) m ks.
Proof.
  revert m. induction ks as [|k ks IH]; intros m; [done|].
  unfold removal_effects in *. cbn [mbind list_bind].
  rewrite replay_app. cbn [replay foldl apply_effect]. apply IH.
Qed.

Lemma emission_points_app m tr1 tr2 :
  emission_points m (tr1 ++ tr2)
  = emission_points m tr1 ++ emission_points (replay m tr1) tr2.
Proof.
  revert m. induction tr1 as [|e tr1 IH]; intros m; [done|].
  cbn [app emission_points]. rewrite IH, <-app_assoc. done.
Qed.

Lemma emission_points_length m tr :
  length (emission_points m tr) = length (broadcasts tr).
Proof.
  revert m. induction tr as [|e tr IH]; intros m; [done|].
  unfold broadcasts in *. cbn [emission_points mbind list_bind].
  rewrite !length_app, IH. by destruct e.
Qed.

Lemma emission_points_removal m to ks :
  emission_points m (removal_effects to ks) = removal_points m ks.
Proof.
  revert m. induction ks as [|k ks IH]; intros m; [done|].
  unfold removal_effects in *.
  cbn [mbind list_bind app emission_points apply_effect removal_points].
  by rewrite IH.
Qed.

Lemma well_ordered_app prev tr1 tr2 :
  well_ordered prev (tr1 ++ tr2)
  ↔ well_ordered prev tr1 ∧ well_ordered (last_or prev tr1) tr2.
Proof.
  revert prev. induction tr1 as [|e tr1 IH]; intros prev.
  - unfold last_or. simpl. tauto.
  - cbn [app well_ordered]. rewrite IH.
    assert (last_or (Some e) tr1 = last_or prev (e :: tr1)) as ->.
    { unfold last_or. rewrite last_cons. by destruct (last tr1). }
    tauto.
Qed.

Lemma well_ordered_removal prev to ks :
  well_ordered prev (removal_effects to ks).
Proof.
  revert prev. induction ks as [|k ks IH]; intros prev; [done|].
  unfold removal_effects in *. cbn [mbind list_bind app well_ordered justified].
  split_and!; [done|done|apply IH].
Qed.

(** ** Runs of the server *)

Ltac run_handler :=
  cbv [exec handle bind ret on_connection on_disconnect upload
       nsp_add nsp_remove connectedClients_add connectedClients_delete
       connectedClients_size socket_emit io_emit sharedContent_set
       sharedContent_delete sharedContent_values
       trace sharedContent nsp connectedClients at_emit log fst snd].

Ltac extends_by :=
  eexists; split_and!;
  [ run_handler; rewrite <-?app_assoc; reflexivity
  | run_handler; reflexivity
  | run_handler; cbn [emission_points apply_effect app];
    rewrite ?app_nil_r; reflexivity
  | intros prev; cbn [app well_ordered justified];
    split_and?; try done; eexists; split; reflexivity ].

Section Runs.
Variable marked : jsstring → jsstring.

Lemma extends_nil w w' :
  trace w' = trace w → sharedContent w' = sharedContent w →
  at_emit w' = at_emit w → extends w w'.
Proof. intros Ht Hs He. exists []. by rewrite !app_nil_r. Qed.

Lemma handle_extends r w : extends w (exec (handle marked r) w).
Proof.
  destruct r as [now|sid|sid|file fileId now1 now2
                |text type contentId now1 now2|fileId now].
  - (* Tick *)
    exists (removal_effects (nsp w) (expired_keys now (sharedContent w))).
    assert (exec (handle marked (Tick now)) w
            = exec (cleanup_loop now (sharedContent w)) w) as ->.
    { unfold exec, handle, cleanup, bind, sharedContent_entries, JSMap.entries.
      by destruct (cleanup_loop now (sharedContent w) w). }
    rewrite cleanup_loop_exec. cbn [trace sharedContent at_emit].
    split_and!; [done|by rewrite replay_removal|by rewrite emission_points_removal|].
    intros prev. apply well_ordered_removal.
  - (* Connection *) extends_by.
  - (* Disconnect *)
    unfold exec, handle, bind, nsp_has.
    destruct (bool_decide (sid ∈ nsp w)); [|by apply extends_nil].
    extends_by.
  - (* Upload *)
    destruct file as [file|]; [|by apply extends_nil].
    extends_by.
  - (* ShareText *)
    unfold exec, handle, share_text, bind.
    destruct text as [text|]; [|by apply extends_nil].
    destruct (_ || _); [by apply extends_nil|].
    extends_by.
  - (* Download *)
    unfold exec, handle, download, bind, sharedContent_get.
    destruct (JSMap.get fileId (sharedContent w)) as [[f|t]|];
      [|by apply extends_nil..].
    destruct (bool_decide (now > f_expiresAt f)); [extends_by|].
    destruct (_ && _); by apply extends_nil.
Qed.

(** The histories of a run are exact: the store is what the logged store
    effects give, each [io.emit] ran on the store that the effects logged
    before it give, and every content broadcast is justified. *)
Lemma run_invariant rs w :
  replay JSMap.empty (trace w) = sharedContent w →
  emission_points JSMap.empty (trace w) = at_emit w →
  well_ordered None (trace w) →
  replay JSMap.empty (trace (run marked rs w)) = sharedContent (run marked rs w)
  ∧ emission_points JSMap.empty (trace (run marked rs w))
    = at_emit (run marked rs w)
  ∧ well_ordered None (trace (run marked rs w)).
Proof.
  revert w. induction rs as [|r rs IH]; intros w Hs He Ho; [done|].
  cbn [run]. destruct (handle_extends r w) as (suffix & Ht & Hs' & He' & Ho').
  apply IH.
  - by rewrite Ht, replay_app, Hs.
  - by rewrite Ht, emission_points_app, Hs, He, He'.
  - rewrite Ht. apply well_ordered_app. split; [done|apply Ho'].
Qed.

Lemma replay_trace rs :
  replay JSMap.empty (trace (run marked rs init))
  = sharedContent (run marked rs init).
Proof. by apply run_invariant. Qed.

(** C6. In every run, each [io.emit] of [newContent] comes right after
    the [Map.set] of the entry it announces and runs on a store that holds
    that entry under its id; each [io.emit] of [contentRemoved] comes right
    after the [Map.delete] of the id it announces and runs on a store that
    no longer holds the id. [store] below is the store as it was when the
    call ran; it is also what the store effects logged before the call
    give. No [contentRemoved] is emitted otherwise. *)
Theorem broadcast_follows_store_update rs pre to m post :
  trace (run marked rs init) = pre ++ IoEmit to m :: post →
  ∃ store,
    at_emit (run marked rs init) !! length (broadcasts pre) = Some (store, m)
    ∧ store = replay JSMap.empty pre
    ∧ match m with
      | newContent c =>
          ∃ pre' e,
            pre = pre' ++ [MapSet (content_id c) e]
            ∧ entry_view e = c
            ∧ JSMap.get (content_id c) store = Some e
      | contentRemoved cid =>
          ∃ pre',
            pre = pre' ++ [MapDelete cid]
            ∧ JSMap.get cid store = None
      | _ => True
      end.
Proof.
  intros Htr.
  destruct (run_invariant rs init eq_refl eq_refl I) as (_ & He & Ho).
  exists (replay JSMap.empty pre). split_and!; [|done|].
  { rewrite <-He, Htr, emission_points_app.
    rewrite <-emission_points_length with (m := JSMap.empty).
    rewrite lookup_app_r by done. by rewrite Nat.sub_diag. }
  rewrite Htr in Ho. apply well_ordered_app in Ho as [_ [Hj _]].
  unfold last_or in Hj. destruct m as [cs|c|cid|n]; [done| | |done].
  - destruct Hj as (v & Hlast & Hv).
    destruct (last pre) as [e|] eqn:Hl; [|done].
    injection Hlast as ->. apply last_Some in Hl as [pre' ->].
    exists pre', v. split_and!; [done|done|].
    rewrite replay_app. apply JSMapFacts.get_set_eq.
  - cbn in Hj. destruct (last pre) as [e|] eqn:Hl; [|done].
    injection Hj as ->. apply last_Some in Hl as [pre' ->].
    exists pre'. split; [done|].
    rewrite replay_app. apply JSMapFacts.get_delete_eq.
Qed.

End Runs.


Lemma broadcast_follows_store_update_witness :
  let a := JS.lit "a" in
  let rs := [Upload (Some report_pdf) a 0 0; Tick 600001] in
  let added := newContent (File (delete_buffer (report_entry "a" 0))) in
  let pre := [MapSet a (File (report_entry "a" 0)); IoEmit ∅ added;
              MapDelete a] in
  trace (run no_markdown rs init) = pre ++ IoEmit ∅ (contentRemoved a) :: []
  ∧ (∃ store,
       at_emit (run no_markdown rs init) !! 1%nat = Some (store, contentRemoved a)
       ∧ JSMap.get a store = None)
  ∧ (∃ store,
       at_emit (run no_markdown rs init) !! 0%nat = Some (store, added)
       ∧ JSMap.get a store = Some (File (report_entry "a" 0))).
Proof.
  intros a rs added pre.
  assert (H : trace (run no_markdown rs init)
              = pre ++ IoEmit ∅ (contentRemoved a) :: [])
    by (vm_compute; reflexivity).
  assert (H' : trace (run no_markdown rs init)
               = [MapSet a (File (report_entry "a" 0))]
                 ++ IoEmit ∅ added :: [MapDelete a; IoEmit ∅ (contentRemoved a)])
    by (vm_compute; reflexivity).
  split; [exact H|]. split.
  - destruct (broadcast_follows_store_update no_markdown rs pre ∅
                (contentRemoved a) [] H) as (store & Hat & _ & pre' & _ & Hget).
    exists store. split; [exact Hat | exact Hget].
  - destruct (broadcast_follows_store_update no_markdown rs _ ∅ added _ H')
      as (store & Hat & _ & pre' & e & Hpre & _ & Hget).
    exists store. split; [exact Hat|].
    apply (app_inj_tail []) in Hpre as [_ Heq]. injection Heq as <-.
    exact Hget.
Defined.

(** ** Observers *)

(** In every run the sockets of the namespace are the registered clients,
    and the store holds each key once. *)
Lemma handle_preserves marked r w :
  nsp w = connectedClients w → JSMap.wf (sharedContent w) →
  nsp (exec (handle marked r) w) = connectedClients (exec (handle marked r) w)
  ∧ JSMap.wf (sharedContent (exec (handle marked r) w)).
Proof.
  intros Hn Hwf.
  destruct r as [now|sid|sid|file fileId now1 now2
                |text type contentId now1 now2|fileId now].
  - assert (exec (handle marked (Tick now)) w = exec (cleanup now) w) as ->.
    { unfold exec, handle, bind. by destruct (cleanup now w). }
    rewrite cleanup_exec. cbn [nsp connectedClients sharedContent].
    split; [done|]. rewrite expired_keys_wf by done.
    unfold JSMap.wf, JSMap.keys in *. apply NoDup_fmap_fst.
    + intros k c1 c2 [_ H1]%list_elem_of_filter [_ H2]%list_elem_of_filter.
      pose proof (JSMapFacts.elem_get_Some _ _ _ Hwf H1).
      pose proof (JSMapFacts.elem_get_Some _ _ _ Hwf H2). congruence.
    + apply NoDup_filter. eapply NoDup_fmap_1. exact Hwf.
  - cbn. by rewrite Hn.
  - unfold exec, handle, bind, nsp_has.
    destruct (bool_decide (sid ∈ nsp w)); [|done].
    cbn. by rewrite Hn.
  - destruct file as [file|]; [|done].
    cbn. split; [done|]. by apply JSMapFacts.wf_set.
  - unfold exec, handle, share_text, bind.
    destruct text as [text|]; [|done].
    destruct (_ || _); [done|].
    cbn. split; [done|]. by apply JSMapFacts.wf_set.
  - unfold exec, handle, download, bind, sharedContent_get.
    destruct (JSMap.get fileId (sharedContent w)) as [[f|t]|]; [|done..].
    destruct (bool_decide (now > f_expiresAt f)); [|by destruct (_ && _)].
    cbn. split; [done|]. by apply JSMapFacts.wf_delete.
Qed.

Lemma reachable_invariant marked w :
  reachable marked w →
  nsp w = connectedClients w ∧ JSMap.wf (sharedContent w).
Proof.
  intros [rs ->].
  assert (H : nsp init = connectedClients init ∧ JSMap.wf (sharedContent init))
    by (split; [done|apply NoDup_nil_2]).
  revert H. generalize init. induction rs as [|r rs IH]; intros w [Hn Hwf]; [done|].
  cbn [run]. apply IH. by apply handle_preserves.
Qed.

(** C9. When the namespace holds the registered clients (as in every
    run, the empty registry included): every connection registers the
    socket, then sends it the snapshot of the store, then broadcasts the
    new count to all registered clients, the new one included; every
    disconnection of a registered client removes it, then broadcasts the
    new count to the clients that remain. *)
Theorem connect_disconnect_publish_count marked sid w :
  nsp w = connectedClients w →
  (let w' := exec (handle marked (Connection sid)) w in
   connectedClients w' = {[sid]} ∪ connectedClients w
   ∧ sid ∈ connectedClients w'
   ∧ trace w' = trace w ++
       [SetAdd sid;
        SocketEmit sid (initialContent (JSMap.values (sharedContent w)));
        IoEmit (connectedClients w') (clientCount (size (connectedClients w')))])
  ∧ (sid ∈ connectedClients w →
     let w' := exec (handle marked (Disconnect sid)) w in
     connectedClients w' = connectedClients w ∖ {[sid]}
     ∧ (sid ∉ connectedClients w')
     ∧ trace w' = trace w ++
         [SetDelete sid;
          IoEmit (connectedClients w') (clientCount (size (connectedClients w')))]).
Proof.
  destruct w as [store clients sockets tr pts]. cbn [nsp connectedClients].
  intros ->. split.
  - cbv zeta. run_handler. rewrite <-!app_assoc.
    split_and!; [done| |done].
    apply elem_of_union_l. by apply elem_of_singleton.
  - intros Hin. cbv zeta. unfold exec, handle, bind, nsp_has. cbn [nsp].
    rewrite bool_decide_eq_true_2 by done.
    run_handler. rewrite <-!app_assoc.
    split_and!; [done| |done].
    intros [_ Hne]%elem_of_difference. apply Hne. by apply elem_of_singleton.
Qed.


Lemma connect_disconnect_publish_count_witness :
  let s1 := JS.lit "s1" in
  let s2 := JS.lit "s2" in
  let w := run no_markdown
             [Upload (Some report_pdf) (JS.lit "a") 0 0; Connection s1] init in
  nsp init = connectedClients init
  ∧ trace (exec (handle no_markdown (Connection s1)) init)
    = [SetAdd s1; SocketEmit s1 (initialContent []);
       IoEmit {[s1]} (clientCount 1)]
  ∧ nsp w = connectedClients w
  ∧ s1 ∈ connectedClients w
  ∧ trace (exec (handle no_markdown (Connection s2)) w)
    = trace w ++ [SetAdd s2;
                  SocketEmit s2 (initialContent [File (report_entry "a" 0)]);
                  IoEmit ({[s2]} ∪ connectedClients w) (clientCount 2)]
  ∧ trace (exec (handle no_markdown (Disconnect s1)) w)
    = trace w ++ [SetDelete s1;
                  IoEmit (connectedClients w ∖ {[s1]}) (clientCount 0)].
Proof.
  intros s1 s2 w.
  assert (H0 : nsp init = connectedClients init) by reflexivity.
  assert (Hn : nsp w = connectedClients w) by reflexivity.
  assert (Hin : s1 ∈ connectedClients w)
    by (apply (bool_decide_unpack _); vm_compute; exact I).
  split; [exact H0|]. split.
  { destruct (connect_disconnect_publish_count no_markdown s1 init H0)
      as [(_ & _ & Hc) _]. exact Hc. }
  split; [exact Hn|]. split; [exact Hin|]. split.
  - destruct (connect_disconnect_publish_count no_markdown s2 w Hn)
      as [(_ & _ & Hc) _]. exact Hc.
  - destruct (connect_disconnect_publish_count no_markdown s1 w Hn)
      as [_ Hd]. destruct (Hd Hin) as (_ & _ & Ht). exact Ht.
Defined.

(** C2 (amended). The snapshot sent to a connecting socket holds one
    entry for each entry in the store at that moment, past its expiry or
    not: nothing is filtered by expiry when the store is read. (The entries
    are compared by their entry-views and as a collection; their order and
    their buffers are left open.) Entries past their expiry leave the
    snapshot only by leaving the store: once the timer callback has run at
    [now], the store holds no entry with [expiresAt < now]. *)
Theorem snapshot_is_unfiltered_store marked sid now w :
  (∃ cs,
     snapshots (delivered sid (trace (exec (handle marked (Connection sid)) w)))
     = snapshots (delivered sid (trace w)) ++ [cs]
     ∧ entry_view <$> cs ≡ₚ entry_view <$> JSMap.values (sharedContent w))
  ∧ Forall (λ c, now ≤ expiresAt c)
      (JSMap.values (sharedContent (exec (handle marked (Tick now)) w))).
Proof.
  split.
  - exists (JSMap.values (sharedContent w)). split; [|done].
    assert (trace (exec (handle marked (Connection sid)) w)
            = trace w ++
              [SetAdd sid;
               SocketEmit sid (initialContent (JSMap.values (sharedContent w)));
               IoEmit ({[sid]} ∪ nsp w)
                 (clientCount (size ({[sid]} ∪ connectedClients w)))]) as ->.
    { destruct w. run_handler. by rewrite <-!app_assoc. }
    rewrite delivered_app, snapshots_app. f_equal.
    unfold delivered. cbn [mbind list_bind app].
    rewrite decide_True by done.
    by destruct (decide (sid ∈ {[sid]} ∪ nsp w)).
  - assert (exec (handle marked (Tick now)) w = exec (cleanup now) w) as ->.
    { unfold exec, handle, bind. by destruct (cleanup now w). }
    rewrite cleanup_exec. cbn [sharedContent]. unfold JSMap.values.
    apply Forall_fmap, Forall_forall.
    intros [k c] [Hk Hin]%list_elem_of_filter. cbn [fst snd] in *.
    destruct (decide (now ≤ expiresAt c)) as [|Hn]; [done|].
    exfalso. apply Hk. apply list_elem_of_fmap. exists (k, c). split; [done|].
    apply list_elem_of_filter. split; [simpl; lia | done].
Qed.

(** C2 as stated fails: an upload [a] at time 0 expires at 600000; the
    timer runs at 599990; a second upload [b] is made at 620000, and then a
    socket connects, at some [now >= 620000]. Its snapshot holds [a],
    although [expiresAt a <= now]. *)
Lemma snapshot_includes_expired_entry :
  let s1 := JS.lit "s1" in
  let w := run no_markdown
             [Upload (Some report_pdf) (JS.lit "a") 0 0; Tick 599990;
              Upload (Some report_pdf) (JS.lit "b") 620000 620000;
              Connection s1] init in
  snapshots (delivered s1 (trace w))
  = [[File (report_entry "a" 0); File (report_entry "b" 620000)]]
  ∧ expiresAt (File (report_entry "a" 0)) ≤ 620000.
Proof.
  split; [vm_compute; reflexivity | vm_compute; discriminate].
Qed.

(** ** What the observers are sent *)

(** The [newContent] broadcast of an upload carries the stored entry with
    the buffer deleted and every other property as stored. *)
Lemma upload_broadcast_strips_buffer file fileId now1 now2 w :
  ∃ fileData,
    trace (exec (upload (Some file) fileId now1 now2) w)
    = trace w ++ [MapSet fileId (File fileData);
                  IoEmit (nsp w) (newContent (File (delete_buffer fileData)))]
    ∧ buffer fileData = Some (mf_buffer file)
    ∧ buffer (delete_buffer fileData) = None
    ∧ f_id (delete_buffer fileData) = f_id fileData
    ∧ filename (delete_buffer fileData) = filename fileData
    ∧ mimetype (delete_buffer fileData) = mimetype fileData
    ∧ f_size (delete_buffer fileData) = f_size fileData
    ∧ uploadedAt (delete_buffer fileData) = uploadedAt fileData
    ∧ f_expiresAt (delete_buffer fileData) = f_expiresAt fileData
    ∧ downloadUrl (delete_buffer fileData) = downloadUrl fileData.
Proof.
  eexists. split.
  - destruct w. run_handler. rewrite <-!app_assoc. reflexivity.
  - by split_and!.
Qed.

(** C1 (the code departs from the claim). A client [s0] is connected, a
    file is uploaded, then [s1] connects. [s0] is sent the entry without
    its buffer; [s1] is sent, in its initial snapshot, the stored entry
    with the payload bytes in its buffer. *)
Theorem initial_snapshot_carries_buffer :
  let s0 := JS.lit "s0" in
  let s1 := JS.lit "s1" in
  let w := run no_markdown
             [Connection s0; Upload (Some report_pdf) (JS.lit "a") 0 0;
              Connection s1] init in
  delivered s0 (trace w)
  = [initialContent []; clientCount 1;
     newContent (File (delete_buffer (report_entry "a" 0))); clientCount 2]
  ∧ delivered s1 (trace w)
    = [initialContent [File (report_entry "a" 0)]; clientCount 2]
  ∧ buffer (delete_buffer (report_entry "a" 0)) = None
  ∧ buffer (report_entry "a" 0) = Some ["%"%byte; "P"%byte; "D"%byte].
Proof.
  split_and!; vm_compute; reflexivity.
Qed.

(** C3 (the code departs from the claim). [s0] is connected, two files
    are uploaded, [a] then [b], both live; then [s1] connects. The snapshot
    sent to [s1] lists [a] before [b], oldest first, and so does the list
    [s1] shows; the list [s0] shows has [b] before [a], newest first. *)
Theorem initial_snapshot_is_oldest_first :
  let s0 := JS.lit "s0" in
  let s1 := JS.lit "s1" in
  let w := run no_markdown
             [Connection s0; Upload (Some report_pdf) (JS.lit "a") 0 0;
              Upload (Some report_pdf) (JS.lit "b") 5 5; Connection s1] init in
  snapshots (delivered s1 (trace w))
  = [[File (report_entry "a" 0); File (report_entry "b" 5)]]
  ∧ content_id <$> Client.sharedContent (Client.view (delivered s1 (trace w)))
    = [JS.lit "a"; JS.lit "b"]
  ∧ content_id <$> Client.sharedContent (Client.view (delivered s0 (trace w)))
    = [JS.lit "b"; JS.lit "a"].
Proof.
  split_and!; vm_compute; reflexivity.
Qed.


(** ** URL extraction *)

Lemma strip_prefix_Some p s r :
  JS.strip_prefix p s = Some r ↔ s = p ++ r.
Proof.
  revert s. induction p as [|a p IH]; intros s; cbn [JS.strip_prefix app].
  - split; congruence.
  - destruct s as [|b s]; [done|].
    destruct (N.eqb_spec a b) as [->|Hne].
    + rewrite IH. split; congruence.
    + split; [done|]. intros [= ? _]. congruence.
Qed.

Lemma span_spec f s :
  s = (JS.span f s).1 ++ (JS.span f s).2
  ∧ Forall (λ c, f c = true) (JS.span f s).1
  ∧ match (JS.span f s).2 with [] => True | c :: _ => f c = false end.
Proof.
  induction s as [|c s IH]; cbn [JS.span]; [done|].
  destruct (f c) eqn:Hc; [|done].
  destruct (JS.span f s) as [a b]. cbn [fst snd] in *.
  destruct IH as (-> & Ha & Hb). by split_and!; [|constructor|].
Qed.

Lemma span_unique f (a b : jsstring) :
  Forall (λ c, f c = true) a →
  match b with [] => True | c :: _ => f c = false end →
  JS.span f (a ++ b) = (a, b).
Proof.
  intros Ha Hb. induction Ha as [|c a Hc Ha IH]; cbn [app].
  - destruct b as [|c b]; [done|]. cbn [JS.span]. by rewrite Hb.
  - cbn [JS.span]. by rewrite Hc, IH.
Qed.

Lemma scheme_Some s sch r :
  UrlRegex.scheme s = Some (sch, r) →
  (sch = JS.lit "http://" ∨ sch = JS.lit "https://") ∧ s = sch ++ r.
Proof.
  unfold UrlRegex.scheme.
  destruct (JS.strip_prefix (JS.lit "http") s) as [r0|] eqn:H0; [|done].
  apply strip_prefix_Some in H0 as ->.
  destruct (JS.strip_prefix (JS.lit "s") r0) as [r1|] eqn:H1.
  - apply strip_prefix_Some in H1 as ->.
    destruct (JS.strip_prefix (JS.lit "://") r1) as [r2|] eqn:H2.
    + apply strip_prefix_Some in H2 as ->. intros [= <- <-]. by split; [right|].
    + destruct (JS.strip_prefix (JS.lit "://") _) as [r2|] eqn:H3; [|done].
      apply strip_prefix_Some in H3. discriminate.
  - destruct (JS.strip_prefix (JS.lit "://") r0) as [r2|] eqn:H3; [|done].
    apply strip_prefix_Some in H3 as ->. intros [= <- <-]. by split; [left|].
Qed.

Lemma scheme_complete sch r :
  sch = JS.lit "http://" ∨ sch = JS.lit "https://" →
  UrlRegex.scheme (sch ++ r) = Some (sch, r).
Proof. by intros [-> | ->]. Qed.

Lemma exec_at_spec s u post :
  UrlRegex.exec_at s = Some (u, post)
  ↔ s = u ++ post ∧ is_url u ∧ ends_run post.
Proof.
  unfold UrlRegex.exec_at. split.
  - destruct (UrlRegex.scheme s) as [[sch r]|] eqn:Hs; [|done].
    apply scheme_Some in Hs as [Hsch ->].
    pose proof (span_spec (λ c, negb (JS.isWhiteSpace c)) r) as (Hr & Hbody & Hpost).
    destruct (JS.span _ r) as [body rest]. cbn [fst snd] in *.
    destruct body as [|c body]; [done|]. intros [= <- <-].
    split_and!.
    + by rewrite Hr, app_assoc.
    + exists (c :: body). split_and!; [by destruct Hsch as [-> | ->]; [left|right]|done|].
      eapply Forall_impl; [exact Hbody|]. by intros x ?%negb_true_iff.
    + destruct rest as [|x rest]; [done|]. by apply negb_false_iff.
  - intros (-> & (body & Hu & Hne & Hbody) & Hpost).
    assert (∃ sch, (sch = JS.lit "http://" ∨ sch = JS.lit "https://")
                   ∧ u = sch ++ body) as (sch & Hsch & ->)
      by (destruct Hu; eauto).
    rewrite <-app_assoc, scheme_complete by done.
    rewrite span_unique.
    + by destruct body.
    + eapply Forall_impl; [exact Hbody|]. by intros x ?%negb_true_iff.
    + destruct post as [|x post]; [done|]. by apply negb_false_iff.
Qed.

Lemma is_url_nonempty u : is_url u → u ≠ [].
Proof. by intros (body & [-> | ->] & _). Qed.

Lemma url_at_0 s u :
  url_at s 0 u ↔ ∃ post, UrlRegex.exec_at s = Some (u, post).
Proof.
  split.
  - intros (pre & post & -> & Hlen & Hu & Hpost).
    apply nil_length_inv in Hlen as ->. exists post.
    by apply exec_at_spec.
  - intros [post (-> & Hu & Hpost)%exec_at_spec]. by exists [], post.
Qed.

Lemma url_at_S c s i u : url_at (c :: s) (S i) u ↔ url_at s i u.
Proof.
  split.
  - intros (pre & post & Heq & Hlen & Hu & Hpost).
    destruct pre as [|c' pre]; [done|]. injection Heq as -> ->.
    exists pre, post. by injection Hlen as ->.
  - intros (pre & post & -> & <- & Hu & Hpost). by exists (c :: pre), post.
Qed.

Lemma url_at_nil i u : ¬ url_at [] i u.
Proof.
  intros (pre & post & Heq & _ & Hu%is_url_nonempty & _).
  symmetry in Heq. apply app_eq_nil in Heq as [_ [? _]%app_eq_nil]. done.
Qed.

(** The scan has fuel to spare: its first match is the first URL of the
    text, and it finds nothing only if the text holds none. *)
Lemma scan_first fuel s :
  (length s ≤ fuel)%nat →
  match UrlRegex.scan fuel s with
  | [] => ∀ i u, ¬ url_at s i u
  | u :: _ => first_url s u
  end.
Proof.
  revert s. induction fuel as [|fuel IH]; intros s Hlen.
  - destruct s; [|simpl in Hlen; lia]. intros i u. apply url_at_nil.
  - destruct s as [|c s]; [intros i u; apply url_at_nil|].
    cbn [UrlRegex.scan].
    destruct (UrlRegex.exec_at (c :: s)) as [[m rest]|] eqn:He.
    + exists 0%nat. split; [apply url_at_0; eauto|]. intros j u' Hj. lia.
    + assert (H0 : ∀ u, ¬ url_at (c :: s) 0 u).
      { intros u [post Hp]%url_at_0. congruence. }
      specialize (IH s). simpl in Hlen.
      destruct (UrlRegex.scan fuel s) as [|u us].
      * intros [|i] u; [apply H0|]. rewrite url_at_S. apply IH. lia.
      * destruct IH as (i & Hi & Hfirst); [lia|].
        exists (S i). split; [by apply url_at_S|].
        intros [|j] u' Hj; [apply H0|]. rewrite url_at_S. apply Hfirst. lia.
Qed.

(** More fuel than the length of the text changes nothing. *)
Lemma scan_fuel fuel1 fuel2 s :
  (length s ≤ fuel1)%nat → (length s ≤ fuel2)%nat →
  UrlRegex.scan fuel1 s = UrlRegex.scan fuel2 s.
Proof.
  revert fuel2 s. induction fuel1 as [|fuel1 IH]; intros fuel2 s H1 H2.
  - destruct s; [by destruct fuel2|simpl in H1; lia].
  - destruct s as [|c s]; [by destruct fuel2|].
    destruct fuel2 as [|fuel2]; [simpl in H2; lia|].
    cbn [UrlRegex.scan]. simpl in H1, H2.
    destruct (UrlRegex.exec_at (c :: s)) as [[m rest]|] eqn:He.
    + apply exec_at_spec in He as (Heq & Hu%is_url_nonempty & _).
      assert (length rest < length (c :: s))%nat.
      { rewrite Heq, length_app. destruct m; [done|simpl; lia]. }
      simpl in *. f_equal. apply IH; lia.
    + apply IH; lia.
Qed.

Lemma extract_metadata_spec text : link_spec text (extract_metadata text).
Proof.
  unfold extract_metadata, UrlRegex.match_g.
  pose proof (scan_first (length text) text (le_n _)) as H.
  by destruct (UrlRegex.scan (length text) text).
Qed.

(** C8. Whatever the requested type and whatever the renderer, an accepted
    text share stores an entry whose raw content is the text and whose
    metadata comes from the raw text alone: [hasLinks] and [firstUrl] are
    set to [true] and to the first match of [https?://] followed by
    non-whitespace, and both are absent when the text holds no match. *)
Theorem share_text_link_metadata marked text type contentId now1 now2 w :
  text ≠ [] → JS.trim text ≠ [] →
  ∃ td,
    JSMap.get contentId
      (sharedContent
         (exec (share_text marked (Some text) type contentId now1 now2) w))
    = Some (Text td)
    ∧ content td = text
    ∧ metadata td = extract_metadata text
    ∧ link_spec text (metadata td).
Proof.
  intros Hne Htrim. unfold exec, share_text.
  rewrite bool_decide_eq_false_2 by done.
  rewrite bool_decide_eq_false_2 by by intros ?%nil_length_inv.
  cbn [orb]. eexists. split_and!.
  - cbn [bind sharedContent_set io_emit ret fst snd sharedContent].
    apply JSMapFacts.get_set_eq.
  - done.
  - done.
  - apply extract_metadata_spec.
Qed.

Lemma share_text_link_metadata_witness :
  let text := JS.lit "Check https://example.com now" in
  let shared := share_text render_paragraph (Some text)
                  (Some (JS.lit "markdown")) (JS.lit "c") 0 0 in
  text ≠ [] ∧ JS.trim text ≠ []
  ∧ ∃ td,
      JSMap.get (JS.lit "c") (sharedContent (exec shared init)) = Some (Text td)
      ∧ metadata td
        = {| hasLinks := Some true;
             firstUrl := Some (JS.lit "https://example.com") |}.
Proof.
  intros text shared.
  assert (H1 : text ≠ []) by (vm_compute; discriminate).
  assert (H2 : JS.trim text ≠ []) by (vm_compute; discriminate).
  split; [exact H1|]. split; [exact H2|].
  destruct (share_text_link_metadata render_paragraph text
              (Some (JS.lit "markdown")) (JS.lit "c") 0 0 init H1 H2)
    as (td & Hget & _ & Hmd & _).
  exists td. split; [exact Hget|].
  rewrite Hmd. vm_compute. reflexivity.
Defined.


(** ** Validation of shared text *)

Lemma trimStart_nil s :
  JS.trimStart s = [] ↔ Forall (λ c, JS.isWhiteSpace c = true) s.
Proof.
  induction s as [|c s IH]; cbn [JS.trimStart]; [done|].
  rewrite Forall_cons. destruct (JS.isWhiteSpace c).
  - rewrite IH. tauto.
  - split; [done|]. by intros [? _].
Qed.

Lemma trimStart_head s c r :
  JS.trimStart s = c :: r → JS.isWhiteSpace c = false.
Proof.
  induction s as [|c' s IH]; cbn [JS.trimStart]; [done|].
  destruct (JS.isWhiteSpace c') eqn:Hc; [done|]. by intros [= <- _].
Qed.

Lemma trim_nil s :
  JS.trim s = [] ↔ Forall (λ c, JS.isWhiteSpace c = true) s.
Proof.
  unfold JS.trim. rewrite <-trimStart_nil. split.
  - intros H. apply (f_equal (@rev N)) in H. rewrite rev_involutive in H.
    cbn [rev] in H. apply trimStart_nil in H.
    destruct (JS.trimStart s) as [|c r] eqn:Hs; [done|].
    apply trimStart_head in Hs.
    assert (Hin : c ∈ rev (c :: r)).
    { apply list_elem_of_In, in_rev. rewrite rev_involutive. by left. }
    rewrite Forall_forall in H. specialize (H c Hin). congruence.
  - by intros ->.
Qed.

Lemma share_text_cases marked text type contentId now1 now2 w :
  match text with
  | Some t =>
      if decide (Forall (λ c, JS.isWhiteSpace c = true) t)
      then share_text marked text type contentId now1 now2 w
           = ({| status := 400; body := JsonError "Text content is required" |}, w)
      else (share_text marked text type contentId now1 now2 w).1
           = {| status := 200; body := JsonShare contentId (now1 + TTL) |}
           ∧ ∃ td, JSMap.get contentId
                     (sharedContent
                        (exec (share_text marked text type contentId now1 now2) w))
                   = Some (Text td)
                   ∧ content td = t
  | None =>
      share_text marked text type contentId now1 now2 w
      = ({| status := 400; body := JsonError "Text content is required" |}, w)
  end.
Proof.
  destruct text as [t|]; [|done].
  unfold share_text, exec. destruct (decide _) as [Hws|Hws].
  - apply trim_nil in Hws. rewrite Hws. cbn [length].
    rewrite (bool_decide_eq_true_2 (0%nat = 0%nat)) by done.
    by rewrite orb_true_r.
  - assert (Ht : JS.trim t ≠ []) by (by rewrite trim_nil).
    assert (t ≠ []) by (by intros ->).
    rewrite bool_decide_eq_false_2 by done.
    rewrite bool_decide_eq_false_2 by by intros ?%nil_length_inv.
    cbn [orb bind sharedContent_set io_emit ret fst snd sharedContent].
    split; [done|]. eexists. split; [apply JSMapFacts.get_set_eq|done].
Qed.

(** X1. The share-text handler on any JSON body. It answers 400, storing
    and sending nothing, when [text] is absent, falsy (null, false, 0, the
    empty string) or a string of whitespace only. It answers 500, storing
    and sending nothing, when [text] is truthy and no string. Otherwise,
    for a string with a character that is not whitespace, it answers 200
    with the id and the expiry [now1 + TTL] and stores the entry under the
    id, with that string as its raw content. *)
Theorem share_text_refuses_blank marked text type contentId now1 now2 w :
  match text with
  | Some (JString t) =>
      if decide (Forall (λ c, JS.isWhiteSpace c = true) t)
      then share_text_json marked text type contentId now1 now2 w
           = ({| status := 400; body := JsonError "Text content is required" |}, w)
      else (share_text_json marked text type contentId now1 now2 w).1
           = {| status := 200; body := JsonShare contentId (now1 + TTL) |}
           ∧ ∃ td, JSMap.get contentId
                     (sharedContent
                        (exec (share_text_json marked text type contentId
                                 now1 now2) w))
                   = Some (Text td)
                   ∧ content td = t
  | Some v =>
      share_text_json marked text type contentId now1 now2 w
      = (if truthy v
         then {| status := 500; body := JsonError "Failed to share text" |}
         else {| status := 400; body := JsonError "Text content is required" |},
         w)
  | None =>
      share_text_json marked text type contentId now1 now2 w
      = ({| status := 400; body := JsonError "Text content is required" |}, w)
  end.
Proof.
  destruct text as [[|b|z|t| |]|]; cbn [share_text_json truthy];
    try done; try (by destruct b); try (by destruct z).
  apply (share_text_cases marked (Some t)).
Qed.

(** X2. What the text form lets through passes the handler's own
    validation: when [handleSubmit] posts a body, the share-text handler,
    run on that body, answers 200 and not 400. (The rate limiter and the
    size limit of the body parser run before the handler and are not part
    of this statement.) *)
Theorem form_submission_accepted marked text shareType body contentId now1 now2 w :
  TextShare.handleSubmit text shareType = Some body →
  status (share_text marked body.1 body.2 contentId now1 now2 w).1 = 200.
Proof.
  unfold TextShare.handleSubmit. case_bool_decide as Ht; [done|].
  intros [= <-]. cbn [fst snd].
  pose proof (share_text_cases marked (Some text) (Some shareType)
                contentId now1 now2 w) as H.
  cbv beta iota in H. destruct (decide _) as [Hws|Hws].
  - by apply trim_nil in Hws.
  - destruct H as [-> _]. done.
Qed.

Lemma form_submission_accepted_witness :
  TextShare.handleSubmit (JS.lit " hi ") (JS.lit "text")
  = Some (Some (JS.lit " hi "), Some (JS.lit "text"))
  ∧ status (share_text no_markdown (Some (JS.lit " hi ")) (Some (JS.lit "text"))
              (JS.lit "c") 0 0 init).1 = 200.
Proof.
  assert (H : TextShare.handleSubmit (JS.lit " hi ") (JS.lit "text")
              = Some (Some (JS.lit " hi "), Some (JS.lit "text")))
    by (vm_compute; reflexivity).
  split; [exact H|].
  exact (form_submission_accepted no_markdown _ _ _ (JS.lit "c") 0 0 init H).
Defined.


(** ** The upload filter *)

Lemma startsWith_true s p : startsWith s p = true ↔ ∃ rest, s = p ++ rest.
Proof.
  unfold startsWith. destruct (JS.strip_prefix p s) as [r|] eqn:H.
  - apply strip_prefix_Some in H. split; [by exists r|done].
  - split; [done|]. intros [rest Hr%strip_prefix_Some]. congruence.
Qed.

(** X3. [fileFilter] accepts a mimetype exactly when it starts with one of
    the allowed types, so an accepted mimetype stays accepted whatever is
    appended to it, such as parameters; every other mimetype, the empty
    one included, gets the error [File type not allowed]. *)
Theorem fileFilter_accepts_by_prefix mimetype :
  (fileFilter mimetype = cb_accept
   ↔ ∃ type rest, type ∈ allowedTypes ∧ mimetype = type ++ rest)
  ∧ (∀ suffix, fileFilter mimetype = cb_accept →
               fileFilter (mimetype ++ suffix) = cb_accept)
  ∧ (fileFilter mimetype = cb_accept
     ∨ fileFilter mimetype = cb_error "File type not allowed")
  ∧ fileFilter [] = cb_error "File type not allowed".
Proof.
  assert (Hiff : ∀ m, fileFilter m = cb_accept
                      ↔ ∃ type rest, type ∈ allowedTypes ∧ m = type ++ rest).
  { intros m. unfold fileFilter.
    destruct (existsb _ allowedTypes) eqn:He.
    - split; [intros _|done].
      apply existsb_exists in He as (type & Hin & [rest ->]%startsWith_true).
      exists type, rest. split; [by apply list_elem_of_In|done].
    - split; [done|]. intros (type & rest & Hin & ->).
      assert (existsb (λ t, startsWith (type ++ rest) t) allowedTypes = true);
        [|congruence].
      apply existsb_exists. exists type.
      split; [by apply list_elem_of_In|]. apply startsWith_true. by exists rest. }
  split_and!.
  - apply Hiff.
  - intros suffix (type & rest & Hin & ->)%Hiff. apply Hiff.
    exists type, (rest ++ suffix). by rewrite app_assoc.
  - unfold fileFilter. destruct (existsb _ _); [by left|by right].
  - reflexivity.
Qed.

(** ** The advertised address *)

Lemma first_external_filter infos :
  first_external infos
  = address <$> head (filter (λ i, family i = JS.lit "IPv4" ∧ internal i = false)
                             infos).
Proof.
  induction infos as [|i infos IH]; [done|].
  cbn [first_external]. rewrite filter_cons.
  destruct (decide (family i = JS.lit "IPv4" ∧ internal i = false)) as [[Hf Hi]|Hn].
  - by rewrite bool_decide_eq_true_2, Hi.
  - rewrite IH. case_bool_decide as Hf; [|done].
    destruct (internal i); [done|]. by destruct Hn.
Qed.

(** X4. [getLocalIP] returns the address of the first interface entry, in
    enumeration order, that is IPv4 and not internal; when there is none,
    and in particular when there is no interface at all, it returns
    [localhost]. *)
Theorem getLocalIP_first_external interfaces :
  getLocalIP interfaces
  = match filter (λ i, family i = JS.lit "IPv4" ∧ internal i = false)
                 (concat interfaces.*2) with
    | [] => JS.lit "localhost"
    | i :: _ => address i
    end.
Proof.
  induction interfaces as [|[name infos] interfaces IH]; [done|].
  cbn [getLocalIP fmap list_fmap snd concat].
  rewrite filter_app, first_external_filter.
  destruct (filter _ infos) as [|i others]; [|done].
  cbn [head fmap option_fmap option_map app]. apply IH.
Qed.

(** ** Round trip of a file *)

Lemma disposition_ok f :
  header_value_ok (disposition f) = header_value_ok (filename f).
Proof.
  unfold header_value_ok, disposition.
  rewrite forallb_app. cbn [forallb]. rewrite forallb_app. cbn [forallb].
  change (header_char_ok 34) with true.
  change (forallb header_char_ok (JS.lit "attachment; filename=")) with true.
  cbn [andb]. by rewrite andb_true_r.
Qed.

(** X5. A file uploaded at [now1] is answered with its id, its download
    URL and its expiry [now1 + TTL]. A download of that id at any time up
    to the expiry changes nothing; when the uploaded mimetype and name are
    valid header values it hands the uploaded bytes to [res.send], with
    the uploaded mimetype and size and the original name in the
    disposition handed to [res.set]; otherwise it answers 500. *)
Theorem upload_then_download file fileId now1 now2 now w :
  now ≤ now1 + TTL →
  (upload (Some file) fileId now1 now2 w).1
  = {| status := 200;
       body := JsonUpload fileId (JS.lit "/api/download/" ++ fileId) (now1 + TTL) |}
  ∧ download fileId now (exec (upload (Some file) fileId now1 now2) w)
    = (if header_value_ok (mf_mimetype file) && header_value_ok (originalname file)
       then {| status := 200;
               body := SendFile (mf_mimetype file)
                         (JS.lit "attachment; filename="
                            ++ 34%N :: originalname file ++ [34%N])
                         (mf_size file) (Some (mf_buffer file)) |}
       else {| status := 500; body := JsonError "Download failed" |},
       exec (upload (Some file) fileId now1 now2) w).
Proof.
  intros Hnow. split; [done|].
  unfold download, bind, sharedContent_get.
  assert (Hget : JSMap.get fileId
                   (sharedContent (exec (upload (Some file) fileId now1 now2) w))
                 = Some (File {| f_id := fileId;
                                 filename := originalname file;
                                 mimetype := mf_mimetype file;
                                 f_size := mf_size file;
                                 buffer := Some (mf_buffer file);
                                 uploadedAt := now2;
                                 f_expiresAt := now1 + TTL;
                                 downloadUrl := JS.lit "/api/download/" ++ fileId |})).
  { apply JSMapFacts.get_set_eq. }
  rewrite Hget. cbn [f_expiresAt].
  rewrite bool_decide_eq_false_2 by lia.
  rewrite disposition_ok. cbn [mimetype filename].
  by destruct (header_value_ok (mf_mimetype file) && header_value_ok (originalname file)).
Qed.

Lemma upload_then_download_witness :
  600000 ≤ 0 + TTL
  ∧ (download (JS.lit "a") 600000 one_upload).1
    = {| status := 200;
         body := SendFile (JS.lit "application/pdf")
                   (JS.lit "attachment; filename="
                      ++ 34%N :: JS.lit "report.pdf" ++ [34%N])
                   3 (Some ["%"%byte; "P"%byte; "D"%byte]) |}
  ∧ (download (JS.lit "e") 600000 euro_upload).1
    = {| status := 500; body := JsonError "Download failed" |}.
Proof.
  assert (H : 600000 ≤ 0 + TTL) by (vm_compute; discriminate).
  split; [exact H|]. split.
  - destruct (upload_then_download report_pdf (JS.lit "a") 0 0 600000 init H)
      as [_ Hd].
    unfold one_upload. rewrite Hd. reflexivity.
  - destruct (upload_then_download euro_pdf (JS.lit "e") 0 0 600000 init H)
      as [_ Hd].
    unfold euro_upload. rewrite Hd. reflexivity.
Defined.

(** ** Error answers *)

(** X6. An HTTP request answered with an error status (400, 404, 410)
    sends nothing over the sockets: what each socket has been sent is the
    same before and after, also when the download route has just deleted
    an expired entry. *)
Theorem error_answers_are_silent marked r res sid w :
  (handle marked r w).1 = Some res →
  400 ≤ status res →
  delivered sid (trace (exec (handle marked r) w)) = delivered sid (trace w).
Proof.
  destruct r as [now|s|s|file fileId now1 now2
                |text type contentId now1 now2|fileId now].
  - unfold handle, bind. by destruct (cleanup now w).
  - done.
  - unfold handle, bind, nsp_has. by destruct (bool_decide _).
  - destruct file as [file|]; [|done].
    cbn. intros [= <-]. cbn. lia.
  - unfold exec, handle, share_text, bind.
    destruct text as [text|]; [|done].
    destruct (_ || _); [done|]. cbn. intros [= <-]. cbn. lia.
  - unfold exec, handle, download, bind, sharedContent_get.
    destruct (JSMap.get fileId (sharedContent w)) as [[f|t]|]; [|done..].
    destruct (bool_decide (now > f_expiresAt f)).
    + intros _ _. cbn [fst snd sharedContent_delete ret trace]. unfold log.
      rewrite delivered_app. unfold delivered at 2. cbn [mbind list_bind app].
      by rewrite app_nil_r.
    + by destruct (_ && _).
Qed.

Lemma error_answers_are_silent_witness :
  (handle no_markdown (Download (JS.lit "a") 600001) one_upload).1 = Some gone
  ∧ 400 ≤ status gone
  ∧ delivered (JS.lit "s")
      (trace (exec (handle no_markdown (Download (JS.lit "a") 600001)) one_upload))
    = delivered (JS.lit "s") (trace one_upload).
Proof.
  assert (H1 : (handle no_markdown (Download (JS.lit "a") 600001) one_upload).1
               = Some gone) by (vm_compute; reflexivity).
  assert (H2 : 400 ≤ status gone) by (vm_compute; discriminate).
  split; [exact H1|]. split; [exact H2|].
  exact (error_answers_are_silent no_markdown _ gone (JS.lit "s") one_upload H1 H2).
Defined.


(** ** Link detection in the form and on the server *)

Lemma urlRegex_test_scan fuel s :
  (length s ≤ fuel)%nat →
  TextShare.urlRegex_test s
  = match UrlRegex.scan fuel s with [] => false | _ => true end.
Proof.
  revert s. induction fuel as [|fuel IH]; intros s Hlen.
  - destruct s; [done|simpl in Hlen; lia].
  - destruct s as [|c s]; [done|].
    cbn [TextShare.urlRegex_test UrlRegex.scan]. simpl in Hlen.
    destruct (UrlRegex.exec_at (c :: s)) as [[m rest]|]; [done|].
    apply IH. lia.
Qed.

(** X7. The hint under the text form and the server agree on links: the
    form shows [Contains links] exactly when the metadata the server would
    store for that text has [hasLinks] set, that is, exactly when the text
    holds a match of the URL pattern. *)
Theorem detectContentType_agrees_with_server text :
  (TextShare.detectContentType text = "Contains links"%string
   ↔ hasLinks (extract_metadata text) = Some true)
  ∧ (TextShare.detectContentType text = "Contains links"%string
     ↔ ∃ i u, url_at text i u).
Proof.
  assert (H1 : TextShare.detectContentType text = "Contains links"%string
               ↔ hasLinks (extract_metadata text) = Some true).
  { unfold TextShare.detectContentType, extract_metadata, UrlRegex.match_g.
    rewrite (urlRegex_test_scan (length text)) by done.
    destruct (UrlRegex.scan (length text) text); [|done].
    by destruct (TextShare.markdownRegex_test text). }
  split; [exact H1|]. rewrite H1.
  pose proof (extract_metadata_spec text) as Hs. unfold link_spec in Hs.
  destruct (extract_metadata text) as [[[|]|] [u|]]; try done.
  - split; [intros _|done]. destruct Hs as (i & Hi & _). eauto.
  - split; [done|]. intros (i & u & Hu). by destruct (Hs i u).
Qed.

(** X8. The address the server advertises is detected as a link: when the
    local IP and the port hold no whitespace, sharing [network_url] as text
    yields metadata with [hasLinks] set and [firstUrl] the whole address. *)
Theorem network_url_is_a_link localIP port :
  Forall (λ c, JS.isWhiteSpace c = false) localIP →
  Forall (λ c, JS.isWhiteSpace c = false) port →
  extract_metadata (network_url localIP port)
  = {| hasLinks := Some true; firstUrl := Some (network_url localIP port) |}.
Proof.
  intros Hip Hport.
  assert (Hex : UrlRegex.exec_at (network_url localIP port)
                = Some (network_url localIP port, [])).
  { apply exec_at_spec. split_and!; [by rewrite app_nil_r| |done].
    exists (localIP ++ JS.lit ":" ++ port). split_and!.
    - by left.
    - intros [_ [=]]%app_eq_nil.
    - apply Forall_app. split; [done|]. apply Forall_app. split; [|done].
      by repeat constructor. }
  unfold extract_metadata, UrlRegex.match_g.
  destruct (network_url localIP port) as [|c s] eqn:Hu; [done|].
  cbn [length UrlRegex.scan]. by rewrite Hex.
Qed.

Lemma network_url_is_a_link_witness :
  Forall (λ c, JS.isWhiteSpace c = false) (JS.lit "192.168.1.20")
  ∧ Forall (λ c, JS.isWhiteSpace c = false) (PORT None)
  ∧ extract_metadata (network_url (JS.lit "192.168.1.20") (PORT None))
    = {| hasLinks := Some true;
         firstUrl := Some (JS.lit "http://192.168.1.20:3001") |}.
Proof.
  assert (H1 : Forall (λ c, JS.isWhiteSpace c = false) (JS.lit "192.168.1.20"))
    by (apply (bool_decide_unpack _); vm_compute; exact I).
  assert (H2 : Forall (λ c, JS.isWhiteSpace c = false) (PORT None))
    by (apply (bool_decide_unpack _); vm_compute; exact I).
  split; [exact H1|]. split; [exact H2|].
  exact (network_url_is_a_link (JS.lit "192.168.1.20") (PORT None) H1 H2).
Defined.


(** ** The store along a run *)

Lemma elem_of_set {V} (k k0 : jsstring) (v v0 : V) (m : JSMap.t V) :
  (k, v) ∈ JSMap.set k0 v0 m → (k, v) = (k0, v0) ∨ (k, v) ∈ m.
Proof.
  induction m as [|[k' v'] m IH]; cbn [JSMap.set].
  - intros ->%list_elem_of_singleton. by left.
  - destruct (decide (k' = k0)) as [->|Hne].
    + intros [->|Hin]%elem_of_cons; [by left|right].
      by apply list_elem_of_further.
    + intros [->|Hin]%elem_of_cons; [right; apply list_elem_of_here|].
      destruct (IH Hin) as [?|?]; [by left|right].
      by apply list_elem_of_further.
Qed.

Lemma elem_of_delete {V} (k k0 : jsstring) (v : V) (m : JSMap.t V) :
  (k, v) ∈ JSMap.delete k0 m → (k, v) ∈ m ∧ k ≠ k0.
Proof.
  rewrite JSMapFacts.delete_filter. by intros [? ?]%list_elem_of_filter.
Qed.

Lemma get_filter {V} (P : jsstring * V → Prop) `{!∀ e, Decision (P e)}
    (k : jsstring) (v : V) (m : JSMap.t V) :
  JSMap.wf m → JSMap.get k m = Some v →
  JSMap.get k (filter P m) = if decide (P (k, v)) then Some v else None.
Proof.
  unfold JSMap.wf, JSMap.keys.
  induction m as [|[k' v'] m IH]; [done|].
  rewrite fmap_cons, NoDup_cons, filter_cons. cbn [JSMap.get fst].
  intros [Hk Hnd]. destruct (decide (k' = k)) as [->|Hne].
  - intros [= ->]. destruct (decide (P (k, v))) as [HP|HP].
    + cbn [JSMap.get]. by rewrite decide_True.
    + apply JSMapFacts.get_None. unfold JSMap.keys.
      intros ([k0 v0] & -> & [_ Hin]%list_elem_of_filter)%list_elem_of_fmap.
      apply Hk. apply list_elem_of_fmap. by exists (k0, v0).
  - intros Hget. destruct (decide (P (k', v'))).
    + cbn [JSMap.get]. rewrite decide_False by done. by apply IH.
    + by apply IH.
Qed.

Lemma handle_store marked r w :
  sharedContent (exec (handle marked r) w) = store_after marked r (sharedContent w).
Proof.
  destruct r as [now|s|s|file fileId now1 now2
                |text type contentId now1 now2|fileId now];
    cbn [store_after].
  - assert (exec (handle marked (Tick now)) w = exec (cleanup now) w) as ->.
    { unfold exec, handle, bind. by destruct (cleanup now w). }
    by rewrite cleanup_exec.
  - done.
  - unfold exec, handle, bind, nsp_has. by destruct (bool_decide _).
  - by destruct file.
  - destruct text as [text|]; [|done].
    pose proof (share_text_cases marked (Some text) type contentId
                  now1 now2 w) as H. cbv beta iota in H.
    unfold exec, handle, bind.
    destruct (decide _) as [Hws|Hws].
    + by rewrite H.
    + unfold share_text.
      assert (Ht : JS.trim text ≠ []) by (by rewrite trim_nil).
      assert (text ≠ []) by (by intros ->).
      rewrite bool_decide_eq_false_2 by done.
      rewrite bool_decide_eq_false_2 by by intros ?%nil_length_inv.
      done.
  - unfold exec, handle, download, bind, sharedContent_get.
    destruct (JSMap.get fileId (sharedContent w)) as [[f|t]|]; [|done..].
    destruct (decide (f_expiresAt f < now)).
    + by rewrite bool_decide_eq_true_2 by lia.
    + rewrite bool_decide_eq_false_2 by lia. by destruct (_ && _).
Qed.

Section StoreInvariant.
Variable marked : jsstring → jsstring.

Lemma stored_entries_inv rs :
  JSMap.wf (sharedContent (run marked rs init))
  ∧ ∀ k v, (k, v) ∈ sharedContent (run marked rs init) →
      entry_ok k v
      ∧ match v with
        | File _ => True
        | Text t => processedContent t = content t
                    ∨ processedContent t = marked (content t)
        end.
Proof.
  split; [by eapply reachable_invariant; eexists|].
  assert (H : ∀ k v, (k, v) ∈ sharedContent init →
            entry_ok k v
            ∧ match v with
              | File _ => True
              | Text t => processedContent t = content t
                          ∨ processedContent t = marked (content t)
              end) by (by intros k v ?%elem_of_nil).
  revert H. generalize init. induction rs as [|r rs IH]; intros w Hw; [done|].
  cbn [run]. apply IH. intros k v. rewrite handle_store.
  destruct r as [now|s|s|[file|] fileId now1 now2
                |[text|] type contentId now1 now2|fileId now];
    cbn [store_after]; try apply Hw.
  - intros [_ Hin]%list_elem_of_filter. by apply Hw.
  - intros [[= -> ->]|Hin]%elem_of_set; [|by apply Hw].
    split; [|done]. split; [done|]. split; [by eexists|done].
  - destruct (decide _); [apply Hw|].
    intros [[= -> ->]|Hin]%elem_of_set; [|by apply Hw].
    split; [by split|]. cbn [processedContent contentData_of content].
    destruct (bool_decide _); [by right|by left].
  - destruct (JSMap.get fileId (sharedContent w)) as [[f|t]|]; try apply Hw.
    destruct (decide _); [|apply Hw].
    intros [Hin _]%elem_of_delete. by apply Hw.
Qed.

(** X9. In every run, every stored entry sits under its own id; a stored
    file holds its buffer and its download URL is [/api/download/] followed
    by its id; the metadata of a stored text is the link metadata of its
    raw content, and its processed content is the raw content or its
    rendering by [marked]. No key is stored twice. *)
Theorem stored_entries_ok rs :
  JSMap.wf (sharedContent (run marked rs init))
  ∧ ∀ k v, (k, v) ∈ sharedContent (run marked rs init) →
      entry_ok k v
      ∧ match v with
        | File _ => True
        | Text t => processedContent t = content t
                    ∨ processedContent t = marked (content t)
        end.
Proof. apply stored_entries_inv. Qed.

(** X10. The client passes a text entry to its markdown renderer only if
    the entry was shared as markdown: for every stored text entry that
    [ContentItem] renders as markdown, the processed content is the
    rendering of the raw content by [marked], and differs from it. *)
Theorem markdown_rendered_only_for_markdown rs k t :
  (k, Text t) ∈ sharedContent (run marked rs init) →
  renders_markdown t = true →
  processedContent t = marked (content t)
  ∧ marked (content t) ≠ content t.
Proof.
  intros Hin Hr. destruct (stored_entries_inv rs) as [_ H].
  destruct (H k (Text t) Hin) as [_ Hp].
  unfold renders_markdown in Hr.
  apply andb_true_iff in Hr as [_ Hne%negb_true_iff%bool_decide_eq_false].
  destruct Hp as [Hp|Hp]; [by rewrite Hp in Hne|].
  split; [done|]. by rewrite <-Hp.
Qed.

(** X11. An entry leaves the store only past its expiry, through the timer
    or through a download of its own id, and it is replaced only by an
    upload or a share under its own id: after any request that is none of
    these, the entry is still stored, unchanged. *)
Theorem entry_kept_until_expiry r w k c :
  JSMap.wf (sharedContent w) →
  JSMap.get k (sharedContent w) = Some c →
  match JSMap.get k (sharedContent (exec (handle marked r) w)) with
  | Some c' =>
      c' = c
      ∨ (∃ file now1 now2, r = Upload (Some file) k now1 now2)
      ∨ (∃ text type now1 now2, r = ShareText (Some text) type k now1 now2)
  | None =>
      ∃ now, expiresAt c < now ∧ (r = Tick now ∨ r = Download k now)
  end.
Proof.
  intros Hwf Hget. rewrite handle_store.
  destruct r as [now|s|s|[file|] fileId now1 now2
                |[text|] type contentId now1 now2|fileId now];
    cbn [store_after]; try (rewrite Hget; by left).
  - rewrite expired_keys_wf by done.
    rewrite (get_filter _ k c) by done. cbn [snd].
    destruct (decide (now ≤ expiresAt c)); [by left|].
    exists now. split; [lia|by left].
  - destruct (decide (fileId = k)) as [->|Hne].
    + rewrite JSMapFacts.get_set_eq. right; left. eauto.
    + rewrite JSMapFacts.get_set_ne by done. rewrite Hget. by left.
  - destruct (decide _); [rewrite Hget; by left|].
    destruct (decide (contentId = k)) as [->|Hne].
    + rewrite JSMapFacts.get_set_eq. right; right. eauto.
    + rewrite JSMapFacts.get_set_ne by done. rewrite Hget. by left.
  - destruct (decide (fileId = k)) as [->|Hne].
    + rewrite Hget. destruct c as [f|t]; [|rewrite Hget; by left].
      destruct (decide _) as [Hexp|]; [|rewrite Hget; by left].
      rewrite JSMapFacts.get_delete_eq. exists now. split; [done|by right].
    + destruct (JSMap.get fileId (sharedContent w)) as [[f|t]|];
        try (rewrite Hget; by left).
      destruct (decide _); [|rewrite Hget; by left].
      rewrite JSMapFacts.get_delete_ne by done. rewrite Hget. by left.
Qed.

End StoreInvariant.

Lemma markdown_rendered_only_for_markdown_witness :
  let rs := [ShareText (Some (JS.lit "# hi")) (Some (JS.lit "markdown"))
               (JS.lit "c") 0 0] in
  let t := contentData_of render_paragraph (JS.lit "# hi")
             (Some (JS.lit "markdown")) (JS.lit "c") 0 0 in
  (JS.lit "c", Text t) ∈ sharedContent (run render_paragraph rs init)
  ∧ renders_markdown t = true
  ∧ processedContent t = JS.lit "<p># hi</p>".
Proof.
  intros rs t.
  assert (H1 : (JS.lit "c", Text t) ∈ sharedContent (run render_paragraph rs init))
    by (vm_compute; apply list_elem_of_here).
  assert (H2 : renders_markdown t = true) by (vm_compute; reflexivity).
  split; [exact H1|]. split; [exact H2|].
  destruct (markdown_rendered_only_for_markdown render_paragraph rs
              (JS.lit "c") t H1 H2) as [Hp _].
  rewrite Hp. vm_compute. reflexivity.
Defined.

Lemma entry_kept_until_expiry_witness :
  JSMap.wf (sharedContent one_upload)
  ∧ JSMap.get (JS.lit "a") (sharedContent one_upload)
    = Some (File (report_entry "a" 0))
  ∧ JSMap.get (JS.lit "a")
      (sharedContent (exec (handle no_markdown (Tick 600000)) one_upload))
    = Some (File (report_entry "a" 0)).
Proof.
  assert (H1 : JSMap.wf (sharedContent one_upload))
    by (apply (bool_decide_unpack _); vm_compute; exact I).
  assert (H2 : JSMap.get (JS.lit "a") (sharedContent one_upload)
               = Some (File (report_entry "a" 0))) by (vm_compute; reflexivity).
  split; [exact H1|]. split; [exact H2|].
  pose proof (entry_kept_until_expiry no_markdown (Tick 600000) one_upload
                (JS.lit "a") (File (report_entry "a" 0)) H1 H2) as H.
  destruct (JSMap.get _ _) as [c'|].
  - destruct H as [->|[(? & ? & ? & [=])|(? & ? & ? & ? & [=])]]. reflexivity.
  - destruct H as (now & Hlt & [[= <-]|[=]]). vm_compute in Hlt. discriminate.
Defined.


(** ** What a connected client shows *)

Ltac world_eq w :=
  destruct w; run_handler; cbn [emission_points apply_effect app orb];
  rewrite <-?app_assoc, ?app_nil_r; reflexivity.

Lemma handle_world marked r w :
  exec (handle marked r) w
  = {| sharedContent := store_after marked r (sharedContent w);
       connectedClients := clients_after r w;
       nsp := nsp_after r w;
       trace := trace w ++ effects marked r w;
       at_emit := at_emit w
                  ++ emission_points (sharedContent w) (effects marked r w) |}.
Proof.
  destruct r as [now|s|s|[file|] fileId now1 now2
                |[text|] type contentId now1 now2|fileId now];
    cbn [store_after clients_after nsp_after effects].
  - assert (exec (handle marked (Tick now)) w = exec (cleanup now) w) as ->.
    { unfold exec, handle, bind. by destruct (cleanup now w). }
    by rewrite cleanup_exec, emission_points_removal.
  - world_eq w.
  - unfold exec, handle, bind, nsp_has. destruct (decide (s ∈ nsp w)).
    + rewrite bool_decide_eq_true_2 by done. world_eq w.
    + rewrite bool_decide_eq_false_2 by done. world_eq w.
  - world_eq w.
  - world_eq w.
  - pose proof (share_text_cases marked (Some text) type contentId
                  now1 now2 w) as H. cbv beta iota in H.
    unfold exec, handle, bind. destruct (decide _) as [Hws|Hws].
    + rewrite H. world_eq w.
    + unfold share_text.
      assert (Ht : JS.trim text ≠ []) by (by rewrite trim_nil).
      assert (text ≠ []) by (by intros ->).
      rewrite bool_decide_eq_false_2 by done.
      rewrite bool_decide_eq_false_2 by by intros ?%nil_length_inv.
      world_eq w.
  - world_eq w.
  - unfold exec, handle, download, bind, sharedContent_get.
    destruct (JSMap.get fileId (sharedContent w)) as [[f|t]|]; [|world_eq w..].
    destruct (decide (f_expiresAt f < now)).
    + rewrite bool_decide_eq_true_2 by lia. world_eq w.
    + rewrite bool_decide_eq_false_2 by lia. destruct (_ && _); world_eq w.
Qed.

Lemma run_app marked rs1 rs2 w :
  run marked (rs1 ++ rs2) w = run marked rs2 (run marked rs1 w).
Proof. revert w. induction rs1 as [|r rs1 IH]; intros w; [done|]. apply IH. Qed.

Lemma view_app ms1 ms2 :
  Client.view (ms1 ++ ms2)
  = foldl (λ st m, Client.on m st) (Client.view ms1) ms2.
Proof. unfold Client.view. apply foldl_app. Qed.

Lemma view_removed st ks :
  foldl (λ st m, Client.on m st) st (contentRemoved <$> ks)
  = {| Client.connectedClients := Client.connectedClients st;
       Client.sharedContent :=
         filter (λ item, content_id item ∉ ks) (Client.sharedContent st) |}.
Proof.
  revert st. induction ks as [|k ks IH]; intros st.
  - cbn [fmap list_fmap foldl]. destruct st as [n l]. cbn. f_equal.
    symmetry. apply filter_all. intros item. apply not_elem_of_nil.
  - cbn [fmap list_fmap foldl]. rewrite IH. cbn [Client.on Client.connectedClients
      Client.sharedContent]. f_equal.
    rewrite list_filter_filter. apply list_filter_iff.
    intros item. rewrite not_elem_of_cons. tauto.
Qed.

Lemma delivered_removal sid to ks :
  delivered sid (removal_effects to ks)
  = if decide (sid ∈ to) then contentRemoved <$> ks else [].
Proof.
  induction ks as [|k ks IH]; [by destruct (decide _)|].
  unfold removal_effects in *. cbn [mbind list_bind].
  rewrite delivered_app, IH. unfold delivered. cbn [mbind list_bind app].
  by destruct (decide (sid ∈ to)).
Qed.

Lemma delivered_nil sid : delivered sid [] = [].
Proof. done. Qed.

Lemma delivered_cons sid e tr :
  delivered sid (e :: tr)
  = match e with
    | SocketEmit sid' m => if decide (sid' = sid) then [m] else []
    | IoEmit to m => if decide (sid ∈ to) then [m] else []
    | _ => []
    end ++ delivered sid tr.
Proof. done. Qed.

Ltac deliver :=
  rewrite ?delivered_cons, ?delivered_nil;
  cbn [app foldl Client.on Client.connectedClients Client.sharedContent].

Section ClientView.
Variable marked : jsstring → jsstring.

Lemma client_view_step sid r w :
  nsp w = connectedClients w →
  (∀ k v, (k, v) ∈ sharedContent w → content_id v = k) →
  (sid ∈ nsp w →
   Client.connectedClients (client_view sid w) = size (connectedClients w)
   ∧ ∀ k v, (k, v) ∈ sharedContent w →
            k ∈ content_id <$> Client.sharedContent (client_view sid w)) →
  let w' := exec (handle marked r) w in
  sid ∈ nsp w' →
  Client.connectedClients (client_view sid w') = size (connectedClients w')
  ∧ ∀ k v, (k, v) ∈ sharedContent w' →
           k ∈ content_id <$> Client.sharedContent (client_view sid w').
Proof.
  intros Hn Hid IH w'. subst w'. unfold client_view in *.
  rewrite handle_world. cbn [nsp connectedClients sharedContent trace].
  rewrite delivered_app, view_app.
  destruct r as [now|s|s|[file|] fileId now1 now2
                |[text|] type contentId now1 now2|fileId now];
    cbn [store_after clients_after nsp_after effects].
  - (* Tick *)
    intros Hin. destruct (IH Hin) as [Hc Hl].
    rewrite delivered_removal, decide_True by done. rewrite view_removed.
    cbn [Client.connectedClients Client.sharedContent]. split; [done|].
    intros k v [Hk Hkv]%list_elem_of_filter. cbn [fst] in Hk.
    pose proof (Hl k v Hkv) as Hx.
    apply list_elem_of_fmap in Hx as (item & -> & Hitem).
    apply list_elem_of_fmap. exists item. split; [done|].
    by apply list_elem_of_filter.
  - (* Connection *)
    intros Hin. deliver.
    rewrite (decide_True (P := sid ∈ {[s]} ∪ nsp w)) by done.
    destruct (decide (s = sid)) as [->|Hne].
    + cbn [app foldl Client.on Client.connectedClients Client.sharedContent].
      split; [done|]. intros k v Hkv. apply list_elem_of_fmap.
      exists v. split; [symmetry; by eapply Hid|].
      unfold JSMap.values. apply list_elem_of_fmap. by exists (k, v).
    + cbn [app foldl Client.on Client.connectedClients Client.sharedContent].
      apply elem_of_union in Hin as [Hs%elem_of_singleton|Hin]; [done|].
      destruct (IH Hin) as [_ Hl]. by split.
  - (* Disconnect *)
    destruct (decide (s ∈ nsp w)) as [Hs|Hs].
    + intros Hin. deliver.
      rewrite decide_True by done.
      cbn [app foldl Client.on Client.connectedClients Client.sharedContent].
      apply elem_of_difference in Hin as [Hin _].
      destruct (IH Hin) as [_ Hl]. by split.
    + intros Hin. deliver. by apply IH.
  - (* Upload *)
    intros Hin. destruct (IH Hin) as [Hc Hl].
    deliver.
    rewrite decide_True by done.
    cbn [app foldl Client.on Client.connectedClients Client.sharedContent].
    split; [done|]. intros k v [[= -> ->]|Hkv]%elem_of_set.
    + rewrite fmap_cons. apply list_elem_of_here.
    + rewrite fmap_cons. apply list_elem_of_further. by eapply Hl.
  - intros Hin. deliver. by apply IH.
  - (* ShareText *)
    destruct (decide _).
    { intros Hin. deliver. by apply IH. }
    intros Hin. destruct (IH Hin) as [Hc Hl].
    deliver.
    rewrite decide_True by done.
    cbn [app foldl Client.on Client.connectedClients Client.sharedContent].
    split; [done|]. intros k v [[= -> ->]|Hkv]%elem_of_set.
    + rewrite fmap_cons. apply list_elem_of_here.
    + rewrite fmap_cons. apply list_elem_of_further. by eapply Hl.
  - intros Hin. deliver. by apply IH.
  - (* Download *)
    intros Hin. destruct (IH Hin) as [Hc Hl].
    destruct (JSMap.get fileId (sharedContent w)) as [[f|t]|];
      [|deliver; by split..].
    destruct (decide _); [|deliver; by split].
    deliver. split; [done|].
    intros k v [Hkv _]%elem_of_delete. by eapply Hl.
Qed.

Lemma client_view_inv rs sid :
  sid ∈ nsp (run marked rs init) →
  Client.connectedClients (client_view sid (run marked rs init))
  = size (connectedClients (run marked rs init))
  ∧ ∀ k v, (k, v) ∈ sharedContent (run marked rs init) →
      k ∈ content_id <$> Client.sharedContent
                           (client_view sid (run marked rs init)).
Proof.
  induction rs as [|r rs IH] using rev_ind; [by intros ?%not_elem_of_empty|].
  rewrite run_app. cbn [run].
  destruct (reachable_invariant marked (run marked rs init)) as [Hn _];
    [by eexists|].
  apply client_view_step; [done| |done].
  intros k v Hkv. destruct (stored_entries_inv marked rs) as [_ Hok].
  by destruct (Hok k v Hkv) as [[? _] _].
Qed.

(** X12. A connected client misses nothing: in every run, the device count
    a connected client shows is the size of [connectedClients], which is
    also what [/api/status] reports, and every id in the store is in the
    list the client shows. *)
Theorem connected_client_in_sync rs sid localIP port :
  sid ∈ connectedClients (run marked rs init) →
  Client.connectedClients (client_view sid (run marked rs init))
  = st_connectedClients (api_status localIP port (run marked rs init))
  ∧ ∀ k, is_Some (JSMap.get k (sharedContent (run marked rs init))) →
         k ∈ content_id <$> Client.sharedContent
                              (client_view sid (run marked rs init)).
Proof.
  cbn [api_status st_connectedClients]. intros Hin.
  destruct (reachable_invariant marked (run marked rs init)) as [Hn _];
    [by eexists|].
  rewrite <-Hn in Hin. destruct (client_view_inv rs sid Hin) as [Hc Hl].
  split; [done|].
  intros k [v Hv]. eapply Hl. by apply JSMapFacts.get_Some_elem.
Qed.

(** X13. The number of entries a connected client lists is never below
    the [activeContent] that [/api/status] reports. *)
Theorem client_lists_at_least_active_content rs sid localIP port :
  sid ∈ connectedClients (run marked rs init) →
  (st_activeContent (api_status localIP port (run marked rs init))
   ≤ length (Client.sharedContent (client_view sid (run marked rs init))))%nat.
Proof.
  cbn [api_status st_activeContent]. intros Hin.
  destruct (reachable_invariant marked (run marked rs init)) as [Hn Hwf];
    [by eexists|].
  rewrite <-Hn in Hin. destruct (client_view_inv rs sid Hin) as [_ Hl].
  unfold JSMap.size.
  rewrite <-(length_fmap fst (sharedContent _)).
  rewrite <-(length_fmap content_id (Client.sharedContent _)).
  apply submseteq_length, NoDup_submseteq; [exact Hwf|].
  intros k ([k' v] & -> & Hkv)%list_elem_of_fmap. by eapply Hl.
Qed.

(** X14. Fan-out of new content: an upload, and a share of a text that
    is not blank, is answered 200 with its id, stores its entry under that
    id, and sends each socket connected at that moment exactly one
    [newContent], carrying the entry-view of that stored entry; the other
    sockets are sent nothing. *)
Theorem new_content_fan_out w sid :
  (∀ file fileId now1 now2,
     let r := Upload (Some file) fileId now1 now2 in
     let stored := File (fileData_of file fileId now1 now2) in
     (handle marked r w).1
     = Some {| status := 200;
               body := JsonUpload fileId (JS.lit "/api/download/" ++ fileId)
                         (now1 + TTL) |}
     ∧ JSMap.get fileId (sharedContent (exec (handle marked r) w)) = Some stored
     ∧ delivered sid (trace (exec (handle marked r) w))
       = delivered sid (trace w)
         ++ (if decide (sid ∈ nsp w) then [newContent (entry_view stored)] else []))
  ∧ (∀ text type contentId now1 now2,
       ¬ Forall (λ c, JS.isWhiteSpace c = true) text →
       let r := ShareText (Some text) type contentId now1 now2 in
       let stored := Text (contentData_of marked text type contentId now1 now2) in
       (handle marked r w).1
       = Some {| status := 200; body := JsonShare contentId (now1 + TTL) |}
       ∧ JSMap.get contentId (sharedContent (exec (handle marked r) w))
         = Some stored
       ∧ delivered sid (trace (exec (handle marked r) w))
         = delivered sid (trace w)
           ++ (if decide (sid ∈ nsp w) then [newContent (entry_view stored)] else [])).
Proof.
  split.
  - intros file fileId now1 now2 r stored. subst r stored.
    rewrite handle_world. cbn [sharedContent trace store_after effects].
    split_and!; [done|apply JSMapFacts.get_set_eq|].
    rewrite delivered_app, !delivered_cons, delivered_nil. cbn [app entry_view].
    by rewrite app_nil_r.
  - intros text type contentId now1 now2 Hws r stored. subst r stored.
    rewrite handle_world. cbn [sharedContent trace store_after effects].
    rewrite !decide_False by done.
    split_and!; [|apply JSMapFacts.get_set_eq|].
    + pose proof (share_text_cases marked (Some text) type contentId
                    now1 now2 w) as H. cbv beta iota in H.
      rewrite decide_False in H by done. destruct H as [H _].
      unfold handle, bind. destruct (share_text _ _ _ _ _ _ w) as [res w'].
      cbn [fst] in *. by rewrite H.
    + rewrite delivered_app, !delivered_cons, delivered_nil. cbn [app entry_view].
      by rewrite app_nil_r.
Qed.

Lemma leaves_alone_step sid k r w :
  leaves_alone sid k r →
  sid ∈ nsp w →
  JSMap.get k (sharedContent w) = None →
  k ∈ content_id <$> Client.sharedContent (client_view sid w) →
  sid ∈ nsp (exec (handle marked r) w)
  ∧ JSMap.get k (sharedContent (exec (handle marked r) w)) = None
  ∧ k ∈ content_id <$> Client.sharedContent
                         (client_view sid (exec (handle marked r) w)).
Proof.
  intros Hr Hin Hget Hk. unfold client_view in *.
  rewrite handle_world. cbn [nsp sharedContent trace].
  rewrite delivered_app, view_app.
  destruct r as [now|s|s|[file|] fileId now1 now2
                |[text|] type contentId now1 now2|fileId now];
    cbn [store_after nsp_after effects leaves_alone] in *.
  - assert (Hnk : k ∉ expired_keys now (sharedContent w)).
    { apply JSMapFacts.get_None in Hget. unfold expired_keys, JSMap.keys in *.
      intros ([k' v] & -> & [_ Hkv]%list_elem_of_filter)%list_elem_of_fmap.
      apply Hget. apply list_elem_of_fmap. by exists (k', v). }
    split_and!; [done| |].
    + apply JSMapFacts.get_None. apply JSMapFacts.get_None in Hget.
      unfold JSMap.keys in *.
      intros ([k' v] & -> & [_ Hkv]%list_elem_of_filter)%list_elem_of_fmap.
      apply Hget. apply list_elem_of_fmap. by exists (k', v).
    + rewrite delivered_removal, decide_True by done. rewrite view_removed.
      cbn [Client.sharedContent].
      apply list_elem_of_fmap in Hk as (item & -> & Hitem).
      apply list_elem_of_fmap. exists item. split; [done|].
      by apply list_elem_of_filter.
  - split_and!; [by apply elem_of_union_r|done|].
    deliver. rewrite decide_False by done.
    rewrite decide_True by by apply elem_of_union_r. by deliver.
  - destruct (decide (s ∈ nsp w)).
    + assert (sid ∈ nsp w ∖ {[s]}).
      { apply elem_of_difference. split; [done|].
        intros ?%elem_of_singleton. by apply Hr. }
      split_and!; [done|done|]. deliver. rewrite decide_True by done. by deliver.
    + split_and!; [done|done|]. by deliver.
  - split_and!; [done|by rewrite JSMapFacts.get_set_ne|].
    deliver. rewrite decide_True by done. deliver.
    rewrite fmap_cons. by apply list_elem_of_further.
  - split_and!; [done|done|]. by deliver.
  - destruct (decide _).
    + split_and!; [done|done|]. by deliver.
    + split_and!; [done|by rewrite JSMapFacts.get_set_ne|].
      deliver. rewrite decide_True by done. deliver.
      rewrite fmap_cons. by apply list_elem_of_further.
  - split_and!; [done|done|]. by deliver.
  - destruct (JSMap.get fileId (sharedContent w)) as [[f|t]|] eqn:Hf;
      [|split_and!; [done|done|by deliver]..].
    destruct (decide _); [|split_and!; [done|done|by deliver]].
    split_and!; [done| |by deliver].
    destruct (decide (fileId = k)) as [->|Hne];
      [apply JSMapFacts.get_delete_eq|by rewrite JSMapFacts.get_delete_ne].
Qed.

(** X15. An entry evicted by a download is never announced as removed. If
    a download answers 410 for an id while a client is connected, that id
    stays in the client's list through every later request, as long as the
    client's socket neither reconnects nor disconnects and nothing is
    stored again under the id; the store no longer holds the id. *)
Theorem evicted_entry_stays_listed rs fileId now rs' sid :
  sid ∈ connectedClients (run marked rs init) →
  (handle marked (Download fileId now) (run marked rs init)).1 = Some gone →
  Forall (leaves_alone sid fileId) rs' →
  let w := run marked (rs ++ Download fileId now :: rs') init in
  JSMap.get fileId (sharedContent w) = None
  ∧ fileId ∈ content_id <$> Client.sharedContent (client_view sid w).
Proof.
  intros Hin Hres Hrs' w. subst w. rewrite run_app. cbn [run].
  destruct (reachable_invariant marked (run marked rs init)) as [Hn _];
    [by eexists|].
  rewrite <-Hn in Hin.
  set (w0 := run marked rs init) in *.
  assert (Hf : ∃ f, JSMap.get fileId (sharedContent w0) = Some (File f)
                    ∧ f_expiresAt f < now).
  { unfold handle, download, bind, sharedContent_get in Hres.
    destruct (JSMap.get fileId (sharedContent w0)) as [[f|t]|]; [|done..].
    case_bool_decide; [|by destruct (_ && _)]. exists f. split; [done|lia]. }
  destruct Hf as (f & Hf & Hexp).
  assert (Q : sid ∈ nsp (exec (handle marked (Download fileId now)) w0)
              ∧ JSMap.get fileId
                  (sharedContent (exec (handle marked (Download fileId now)) w0))
                = None
              ∧ fileId ∈ content_id <$> Client.sharedContent
                  (client_view sid (exec (handle marked (Download fileId now)) w0))).
  { unfold client_view. rewrite handle_world.
    cbn [nsp sharedContent trace nsp_after store_after effects].
    rewrite Hf. cbv beta iota. destruct (decide (f_expiresAt f < now)); [|done].
    split_and!; [done| |].
    - apply JSMapFacts.get_delete_eq.
    - rewrite delivered_app, delivered_cons, delivered_nil, app_nil_r.
      destruct (client_view_inv rs sid Hin) as [_ Hl].
      eapply Hl. by apply JSMapFacts.get_Some_elem. }
  revert Q. generalize (exec (handle marked (Download fileId now)) w0).
  induction Hrs' as [|r rs' Hr Hrs' IH]; intros w (Hs & Hg & Hk); [done|].
  cbn [run]. apply IH. by apply leaves_alone_step.
Qed.

End ClientView.


Lemma connected_client_in_sync_witness :
  let w := run no_markdown busy_run init in
  JS.lit "s0" ∈ connectedClients w
  ∧ Client.connectedClients (client_view (JS.lit "s0") w) = 2%nat
  ∧ JS.lit "b" ∈ content_id <$> Client.sharedContent (client_view (JS.lit "s0") w).
Proof.
  intros w.
  assert (Hin : JS.lit "s0" ∈ connectedClients w)
    by (apply (bool_decide_unpack _); vm_compute; exact I).
  split; [exact Hin|]. subst w.
  destruct (connected_client_in_sync no_markdown busy_run (JS.lit "s0")
              (JS.lit "192.168.1.20") (PORT None) Hin) as [Hc Hl].
  split.
  - rewrite Hc. vm_compute. reflexivity.
  - apply Hl. vm_compute. eexists. reflexivity.
Defined.

Lemma client_lists_at_least_active_content_witness :
  let w := run no_markdown busy_run init in
  JS.lit "s1" ∈ connectedClients w
  ∧ (2 ≤ length (Client.sharedContent (client_view (JS.lit "s1") w)))%nat.
Proof.
  intros w.
  assert (Hin : JS.lit "s1" ∈ connectedClients w)
    by (apply (bool_decide_unpack _); vm_compute; exact I).
  split; [exact Hin|].
  exact (client_lists_at_least_active_content no_markdown busy_run (JS.lit "s1")
           (JS.lit "192.168.1.20") (PORT None) Hin).
Defined.

Lemma new_content_fan_out_witness :
  let s0 := JS.lit "s0" in
  let w := exec (handle no_markdown (Connection s0)) init in
  let text := JS.lit "hello" in
  let r := ShareText (Some text) None (JS.lit "t") 0 0 in
  ¬ Forall (λ c, JS.isWhiteSpace c = true) text
  ∧ JSMap.get (JS.lit "t") (sharedContent (exec (handle no_markdown r) w))
    = Some (Text hello_text)
  ∧ delivered s0 (trace (exec (handle no_markdown r) w))
    = delivered s0 (trace w) ++ [newContent (Text hello_text)].
Proof.
  intros s0 w text r.
  assert (H : ¬ Forall (λ c, JS.isWhiteSpace c = true) text).
  { intros Hf. apply Forall_cons in Hf as [Hc _]. vm_compute in Hc. discriminate. }
  split; [exact H|].
  destruct (new_content_fan_out no_markdown w s0) as [_ Hshare].
  destruct (Hshare text None (JS.lit "t") 0 0 H) as (_ & Hget & Hd).
  split; [exact Hget | exact Hd].
Defined.

Lemma evicted_entry_stays_listed_witness :
  let s0 := JS.lit "s0" in
  let a := JS.lit "a" in
  let rs := [Connection s0; Upload (Some report_pdf) a 0 0] in
  let rs' := [Tick 700000; Upload (Some report_pdf) (JS.lit "b") 700001 700001;
              Connection (JS.lit "s1"); Tick 730000] in
  s0 ∈ connectedClients (run no_markdown rs init)
  ∧ (handle no_markdown (Download a 600001) (run no_markdown rs init)).1 = Some gone
  ∧ Forall (leaves_alone s0 a) rs'
  ∧ JSMap.get a
      (sharedContent (run no_markdown (rs ++ Download a 600001 :: rs') init))
    = None
  ∧ a ∈ content_id <$> Client.sharedContent
          (client_view s0 (run no_markdown (rs ++ Download a 600001 :: rs') init)).
Proof.
  intros s0 a rs rs'.
  assert (H1 : s0 ∈ connectedClients (run no_markdown rs init))
    by (apply (bool_decide_unpack _); vm_compute; exact I).
  assert (H2 : (handle no_markdown (Download a 600001) (run no_markdown rs init)).1
               = Some gone) by (vm_compute; reflexivity).
  assert (H3 : Forall (leaves_alone s0 a) rs')
    by (repeat constructor; vm_compute; discriminate).
  split; [exact H1|]. split; [exact H2|]. split; [exact H3|].
  exact (evicted_entry_stays_listed no_markdown rs a 600001 rs' s0 H1 H2 H3).
Defined.


(** X16. The timer clears the clients' lists too: when the callback runs
    past the expiry of a stored entry, the entry leaves the store and its
    id leaves the list of every socket connected at that moment. *)
Theorem timer_clears_client_lists marked now w sid k v :
  sid ∈ nsp w →
  (k, v) ∈ sharedContent w →
  expiresAt v < now →
  JSMap.get k (sharedContent (exec (handle marked (Tick now)) w)) = None
  ∧ k ∉ content_id <$> Client.sharedContent
                         (client_view sid (exec (handle marked (Tick now)) w)).
Proof.
  intros Hin Hkv Hexp. unfold client_view. rewrite handle_world.
  cbn [sharedContent trace store_after effects].
  assert (Hk : k ∈ expired_keys now (sharedContent w)).
  { unfold expired_keys. apply list_elem_of_fmap. exists (k, v).
    split; [done|]. apply list_elem_of_filter. split; [simpl; lia|done]. }
  split.
  - apply JSMapFacts.get_None. unfold JSMap.keys.
    intros ([k' v'] & -> & [Hn _]%list_elem_of_filter)%list_elem_of_fmap.
    by apply Hn.
  - rewrite delivered_app, view_app, delivered_removal, decide_True by done.
    rewrite view_removed. cbn [Client.sharedContent].
    intros (item & -> & [Hn _]%list_elem_of_filter)%list_elem_of_fmap.
    by apply Hn.
Qed.

Lemma timer_clears_client_lists_witness :
  let s0 := JS.lit "s0" in
  let w := run no_markdown busy_run init in
  s0 ∈ nsp w
  ∧ (JS.lit "a", File (report_entry "a" 0)) ∈ sharedContent w
  ∧ expiresAt (File (report_entry "a" 0)) < 600001
  ∧ JSMap.get (JS.lit "a")
      (sharedContent (exec (handle no_markdown (Tick 600001)) w)) = None
  ∧ JS.lit "a" ∉ content_id <$> Client.sharedContent
        (client_view s0 (exec (handle no_markdown (Tick 600001)) w)).
Proof.
  intros s0 w.
  assert (H1 : s0 ∈ nsp w) by (apply (bool_decide_unpack _); vm_compute; exact I).
  assert (H2 : (JS.lit "a", File (report_entry "a" 0)) ∈ sharedContent w)
    by (vm_compute; apply list_elem_of_here).
  assert (H3 : expiresAt (File (report_entry "a" 0)) < 600001)
    by (vm_compute; reflexivity).
  split; [exact H1|]. split; [exact H2|]. split; [exact H3|].
  exact (timer_clears_client_lists no_markdown 600001 w s0 (JS.lit "a")
           (File (report_entry "a" 0)) H1 H2 H3).
Defined.

